(** * arbitrage-frontend: the dashboard component [AppComponent]

    A shallow embedding of [src/app/app.component.ts]: the [filtered]
    computed signal (filter by search text and threshold, then sort), the
    [refresh] operation, the input sanitizers [updateMinDiff] and
    [updateAutoInterval], and the auto-refresh scheduler
    ([startAutoRefresh] / [stopAutoRefresh] driven by the constructor's
    effect). *)

From Stdlib Require Import List String Ascii Bool Arith ZArith QArith Lia.
From Stdlib Require Import Sorted Permutation.
Import ListNotations.

Set Implicit Arguments.
Close Scope Q_scope.

(* ================================================================== *)
(** ** JavaScript numbers *)

(** A JavaScript [number] is an IEEE-754 double.  The component only
    compares numbers, takes the sign of a difference, and takes a maximum,
    so a number is modelled by the value it denotes: the two infinities,
    NaN, or an exact rational (every finite double is one).  Comparisons of
    doubles are exact, and the rounded difference of two finite doubles has
    the sign of their exact difference (gradual underflow keeps a non-zero
    difference non-zero, overflow keeps its sign), so nothing below depends
    on rounding.  [-0] and [+0] compare equal and are not distinguished. *)
Module JSNumber.

Inductive number : Type :=
| NaN
| NegInfinity
| Finite (q : Q)
| PosInfinity.

(** [Number.isFinite(n)] *)
Definition Number_isFinite (n : number) : bool :=
  match n with Finite _ => true | _ => false end.

(** [Number.isNaN(n)] *)
Definition Number_isNaN (n : number) : bool :=
  match n with NaN => true | _ => false end.

(** [a >= b]: false as soon as one operand is NaN. *)
Definition js_ge (a b : number) : bool :=
  match a, b with
  | NaN, _ | _, NaN => false
  | _, NegInfinity => true
  | PosInfinity, _ => true
  | Finite x, Finite y => Qle_bool y x
  | _, _ => false
  end.

(** [a < b]: false as soon as one operand is NaN. *)
Definition js_lt (a b : number) : bool :=
  match a, b with
  | NaN, _ | _, NaN => false
  | _, NegInfinity => false
  | PosInfinity, _ => false
  | Finite x, Finite y => negb (Qle_bool y x)
  | _, _ => true
  end.

(** [a === b] on numbers: NaN differs from everything, itself included. *)
Definition js_eq (a b : number) : bool :=
  match a, b with
  | NegInfinity, NegInfinity => true
  | PosInfinity, PosInfinity => true
  | Finite x, Finite y => Qeq_bool x y
  | _, _ => false
  end.

(** [a - b] *)
Definition js_sub (a b : number) : number :=
  match a, b with
  | NaN, _ | _, NaN => NaN
  | PosInfinity, PosInfinity => NaN
  | NegInfinity, NegInfinity => NaN
  | PosInfinity, _ => PosInfinity
  | NegInfinity, _ => NegInfinity
  | Finite _, PosInfinity => NegInfinity
  | Finite _, NegInfinity => PosInfinity
  | Finite x, Finite y => Finite (x - y)%Q
  end.

(** [Math.max(a, b)]: NaN if an argument is NaN, the larger otherwise. *)
Definition Math_max (a b : number) : number :=
  match a, b with
  | NaN, _ | _, NaN => NaN
  | _, _ => if js_ge a b then a else b
  end.

(** The sign the sort reads off a comparator result: ECMAScript's
    [CompareArrayElements] turns a NaN result into [+0]. *)
Definition sign (v : number) : comparison :=
  match v with
  | NaN => Eq
  | NegInfinity => Lt
  | Finite q => (q ?= 0)%Q
  | PosInfinity => Gt
  end.

Definition ofZ (z : Z) : number := Finite (inject_Z z).

End JSNumber.
Export JSNumber.

(* ================================================================== *)
(** ** JavaScript strings *)

(** Strings are sequences of 8-bit characters; the operations are those of
    [String.prototype] on ASCII text (exchange symbols, URLs, what a user
    types in the search box). *)
Module JSString.

Open Scope string_scope.

(** ASCII white space and line terminators, what [trim] strips. *)
Definition isWhiteSpace (c : ascii) : bool :=
  let n := nat_of_ascii c in
  (Nat.leb 9 n && Nat.leb n 13) || Nat.eqb n 32.

(** The upper-case form of one character: [a]..[z] to [A]..[Z]. *)
Definition upperChar (c : ascii) : ascii :=
  let n := nat_of_ascii c in
  if Nat.leb 97 n && Nat.leb n 122 then ascii_of_nat (n - 32) else c.

(** [s.toUpperCase()] *)
Fixpoint toUpperCase (s : string) : string :=
  match s with
  | EmptyString => EmptyString
  | String c s' => String (upperChar c) (toUpperCase s')
  end.

(** [s.trimStart()] *)
Fixpoint trimStart (s : string) : string :=
  match s with
  | EmptyString => EmptyString
  | String c s' => if isWhiteSpace c then trimStart s' else s
  end.

(** [s.trimEnd()] *)
Fixpoint trimEnd (s : string) : string :=
  match s with
  | EmptyString => EmptyString
  | String c s' =>
      match trimEnd s' with
      | EmptyString => if isWhiteSpace c then EmptyString else String c EmptyString
      | t => String c t
      end
  end.

(** [s.trim()] *)
Definition trim (s : string) : string := trimEnd (trimStart s).

(** Truthiness of a string: the empty string is the only falsy one. *)
Definition truthy (s : string) : bool :=
  match s with EmptyString => false | _ => true end.

(** [s.startsWith(q)] *)
Fixpoint startsWith (s q : string) : bool :=
  match q, s with
  | EmptyString, _ => true
  | String _ _, EmptyString => false
  | String b q', String a s' => Ascii.eqb a b && startsWith s' q'
  end.

(** [s.includes(q)]: [q] occurs in [s] at some position. *)
Fixpoint includes (s q : string) : bool :=
  startsWith s q ||
  match s with
  | EmptyString => false
  | String _ s' => includes s' q
  end.

(** [s.replace(/\/$/, '')]: one trailing slash, if there is one, removed. *)
Fixpoint stripTrailingSlash (s : string) : string :=
  match s with
  | EmptyString => EmptyString
  | String c EmptyString => if Ascii.eqb c "/" then EmptyString else s
  | String c s' => String c (stripTrailingSlash s')
  end.

End JSString.
Export JSString.

(* ================================================================== *)
(** ** [Array.prototype.sort] *)

(** ECMAScript requires [sort] to be stable.  For a comparator that is a
    consistent ordering the result is then unique, and a stable insertion
    sort computes it.  When the comparator is inconsistent (it is as soon
    as it returns NaN for some pairs) the standard leaves the order to the
    implementation; insertion from the right is one such order. *)
Module JSArray.

Section Sort.
Variable A : Type.
Variable comparefn : A -> A -> number.

(** [x] goes after [y] exactly when [comparefn(x, y) > 0]. *)
Fixpoint insert (x : A) (l : list A) : list A :=
  match l with
  | [] => [x]
  | y :: l' =>
      match sign (comparefn x y) with
      | Gt => y :: insert x l'
      | _ => x :: l
      end
  end.

Fixpoint sort (l : list A) : list A :=
  match l with
  | [] => []
  | x :: l' => insert x (sort l')
  end.
End Sort.

End JSArray.

(* ================================================================== *)
(** ** Data model *)

Module App.

Record OpportunityLeg : Type := {
  exchange : string;
  price : number;
  effectivePrice : number;
  feePercentApplied : number
}.

Record ArbitrageOpportunity : Type := {
  symbol : string;
  min : number;
  max : number;
  diff : number;
  netDiff : number;
  buy : OpportunityLeg;
  sell : OpportunityLeg;
  exchanges : list (string * number)
}.

Definition DEFAULT_API_BASE : string :=
  "https://arbitrage-production-e91f.up.railway.app".

Definition MIN_REFRESH_INTERVAL : number := ofZ 1000.

(** A timer handle as [setInterval] returns it: in a browser an integer
    greater than zero, hence always truthy. *)
Definition handle : Type := positive.

(** [Date]: milliseconds since the epoch. *)
Definition Date : Type := N.

(** The fields of the component: its signals and the private timer handle. *)
Record AppComponent : Type := {
  apiBase : string;
  minDiffPercent : number;
  search : string;
  autoRefreshMs : number;
  autoRefreshEnabled : bool;
  opportunities : list ArbitrageOpportunity;
  loading : bool;
  error : option string;
  lastUpdated : option Date;
  refreshTimer : option handle
}.

(** The two predicates of [filtered], as the arrow functions are written. *)
Definition matchesQuery (query : string) (item : ArbitrageOpportunity) : bool :=
  if truthy query then includes (toUpperCase (symbol item)) query else true.

Definition meetsThreshold (threshold : number) (item : ArbitrageOpportunity) : bool :=
  if Number_isFinite threshold then js_ge (netDiff item) threshold else true.

(** The comparator [(a, b) => b.netDiff - a.netDiff]. *)
Definition byNetDiffDesc (a b : ArbitrageOpportunity) : number :=
  js_sub (netDiff b) (netDiff a).

(** The [filtered] computed signal (the spec's [deriveView]). *)
Definition filtered (c : AppComponent) : list ArbitrageOpportunity :=
  let query := toUpperCase (trim (search c)) in
  let threshold := minDiffPercent c in
  JSArray.sort byNetDiffDesc
    (filter (meetsThreshold threshold)
       (filter (matchesQuery query) (opportunities c))).

(** An element of what [exchangesList] returns: [{ name, price }]. *)
Module Entry.
Record t : Type := { name : string; price : number }.
End Entry.

(** [Object.entries(o)] for a [Record<string, number>]: the [exchanges]
    field holds an object's own properties in the order the language
    enumerates them, so the entries are that list. *)
Definition Object_entries (o : list (string * number)) : list (string * number) := o.

Definition exchangesList (opportunity : ArbitrageOpportunity) : list Entry.t :=
  map (fun '(name, price) => {| Entry.name := name; Entry.price := price |})
    (Object_entries (exchanges opportunity)).

Definition trackBySymbol (_index : nat) (item : ArbitrageOpportunity) : string :=
  symbol item.

(* ------------------------------------------------------------------ *)
(** *** The runtime the component runs in *)

(** An HTTP GET as [HttpClient.get(url, { params })] receives it. *)
Record Request : Type := {
  url : string;
  params : list (string * string)
}.

(** A live interval timer of the component.  Its callback is always
    [() => this.refresh()], so only the handle, the delay it was armed
    with, and the time waited since it was armed or last fired are kept. *)
Record Timer : Type := {
  timerId : handle;
  delay : number;
  elapsed : N
}.

(** What the component does to the outside world, in order. *)
Inductive Effect : Type :=
| ClearInterval (h : handle)
| HttpGet (r : Request)
| SetInterval (h : handle) (ms : number).

Record Runtime : Type := {
  timers : list Timer;        (* the live interval timers *)
  nextHandle : handle;        (* the handle the next setInterval returns *)
  awaiting : nat;             (* refresh calls suspended at their await *)
  clock : N;                  (* current time, what new Date() reads *)
  destroyed : bool;           (* the DestroyRef has fired *)
  log : list Effect           (* effects so far, oldest first *)
}.

Record World : Type := {
  self : AppComponent;
  env : Runtime
}.

(** What the awaited promise of [firstValueFrom(http.get(..))] settles to.
    A rejection carries the thrown value, of which the [catch] block only
    asks whether it is an [Error] and, if so, its [message]. *)
Inductive Thrown : Type :=
| ErrorInstance (message : string)
| OtherValue.

Inductive Settled : Type :=
| Fulfilled (data : list ArbitrageOpportunity)
| Rejected (e : Thrown).

(** The argument of [updateMinDiff] and [updateAutoInterval]:
    [number | string]. *)
Inductive Input : Type :=
| NumberValue (n : number)
| StringValue (s : string).

(* ------------------------------------------------------------------ *)
(** *** State passing *)

Definition M (A : Type) : Type := World -> A * World.

Definition ret {A : Type} (a : A) : M A := fun w => (a, w).

Definition bind {A B : Type} (m : M A) (k : A -> M B) : M B :=
  fun w => let (a, w') := m w in k a w'.

Definition exec {A : Type} (m : M A) (w : World) : World := snd (m w).

Declare Scope app_scope.
Delimit Scope app_scope with app.
Notation "x <- c1 ;; c2" := (bind c1 (fun x => c2))
  (at level 61, c1 at next level, right associativity) : app_scope.
Notation "c1 ;; c2" := (bind c1 (fun _ => c2))
  (at level 61, right associativity) : app_scope.
Open Scope app_scope.

(** A signal of the component: how to read it and how to write it. *)
Record Signal (T : Type) : Type := {
  read : AppComponent -> T;
  write : T -> AppComponent -> AppComponent
}.

Definition get {T : Type} (s : Signal T) : M T :=
  fun w => (read s (self w), w).

Definition set {T : Type} (s : Signal T) (v : T) : M unit :=
  fun w => (tt, {| self := write s v (self w); env := env w |}).

Definition update {T : Type} (s : Signal T) (f : T -> T) : M unit :=
  fun w => (tt, {| self := write s (f (read s (self w))) (self w); env := env w |}).

Module Sig.
Definition apiBase : Signal string :=
  {| read := App.apiBase;
     write := fun v c => let '(Build_AppComponent _ m s i e o l r u t) := c in
                         Build_AppComponent v m s i e o l r u t |}.
Definition minDiffPercent : Signal number :=
  {| read := App.minDiffPercent;
     write := fun v c => let '(Build_AppComponent a _ s i e o l r u t) := c in
                         Build_AppComponent a v s i e o l r u t |}.
Definition search : Signal string :=
  {| read := App.search;
     write := fun v c => let '(Build_AppComponent a m _ i e o l r u t) := c in
                         Build_AppComponent a m v i e o l r u t |}.
Definition autoRefreshMs : Signal number :=
  {| read := App.autoRefreshMs;
     write := fun v c => let '(Build_AppComponent a m s _ e o l r u t) := c in
                         Build_AppComponent a m s v e o l r u t |}.
Definition autoRefreshEnabled : Signal bool :=
  {| read := App.autoRefreshEnabled;
     write := fun v c => let '(Build_AppComponent a m s i _ o l r u t) := c in
                         Build_AppComponent a m s i v o l r u t |}.
Definition opportunities : Signal (list ArbitrageOpportunity) :=
  {| read := App.opportunities;
     write := fun v c => let '(Build_AppComponent a m s i e _ l r u t) := c in
                         Build_AppComponent a m s i e v l r u t |}.
Definition loading : Signal bool :=
  {| read := App.loading;
     write := fun v c => let '(Build_AppComponent a m s i e o _ r u t) := c in
                         Build_AppComponent a m s i e o v r u t |}.
Definition error : Signal (option string) :=
  {| read := App.error;
     write := fun v c => let '(Build_AppComponent a m s i e o l _ u t) := c in
                         Build_AppComponent a m s i e o l v u t |}.
Definition lastUpdated : Signal (option Date) :=
  {| read := App.lastUpdated;
     write := fun v c => let '(Build_AppComponent a m s i e o l r _ t) := c in
                         Build_AppComponent a m s i e o l r v t |}.
(** Not a signal in the source but a plain private field; read and written
    the same way here. *)
Definition refreshTimer : Signal (option handle) :=
  {| read := App.refreshTimer;
     write := fun v c => let '(Build_AppComponent a m s i e o l r u _) := c in
                         Build_AppComponent a m s i e o l r u v |}.
End Sig.

Definition with_env (f : Runtime -> Runtime) : M unit :=
  fun w => (tt, {| self := self w; env := f (env w) |}).

Definition emit (e : Effect) (r : Runtime) : Runtime :=
  {| timers := timers r; nextHandle := nextHandle r; awaiting := awaiting r;
     clock := clock r; destroyed := destroyed r; log := log r ++ [e] |}.

(** [setInterval(() => this.refresh(), ms)]: a new live timer under a fresh
    handle, which is returned. *)
Definition setInterval (ms : number) : M handle :=
  fun w =>
    let r := env w in
    let h := nextHandle r in
    (h, {| self := self w;
           env := emit (SetInterval h ms)
                    {| timers := timers r ++ [{| timerId := h; delay := ms; elapsed := 0 |}];
                       nextHandle := Pos.succ h; awaiting := awaiting r;
                       clock := clock r; destroyed := destroyed r; log := log r |} |}).

(** [clearInterval(h)]: the timer of that handle, if live, is no more. *)
Definition clearInterval (h : handle) : M unit :=
  with_env (fun r =>
    emit (ClearInterval h)
      {| timers := filter (fun t => negb (Pos.eqb (timerId t) h)) (timers r);
         nextHandle := nextHandle r; awaiting := awaiting r;
         clock := clock r; destroyed := destroyed r; log := log r |}).

(** [await firstValueFrom(this.http.get(url, { params }))] up to the
    suspension: the request goes out and the caller waits. *)
Definition http_get (q : Request) : M unit :=
  with_env (fun r =>
    emit (HttpGet q)
      {| timers := timers r; nextHandle := nextHandle r; awaiting := S (awaiting r);
         clock := clock r; destroyed := destroyed r; log := log r |}).

(** [new Date()] *)
Definition new_Date : M Date := fun w => (clock (env w), w).

(* ------------------------------------------------------------------ *)
(** *** The component's methods *)

Section Component.

(** The two conversions of the language the component calls: [Number(s)] on
    a string and [String(n)] on a number.  The methods are defined for any
    such pair. *)
Variable StringToNumber : string -> number.
Variable NumberToString : number -> string.

(** [Number(value)] for [value : number | string]. *)
Definition Number (value : Input) : number :=
  match value with
  | NumberValue n => n
  | StringValue s => StringToNumber s
  end.

(** The request [refresh] builds from the current signals. *)
Definition refreshRequest (c : AppComponent) : Request :=
  let base := stripTrailingSlash (apiBase c) in
  {| url := base ++ "/api/arbitrage";
     params := [("minDiffPercent", NumberToString (minDiffPercent c))] |}.

(** [refresh], from its call to the [await]. *)
Definition refresh_begin : M unit :=
  set Sig.loading true ;;
  set Sig.error None ;;
  q <- (fun w => (refreshRequest (self w), w)) ;;
  http_get q.

(** [refresh], from the [await] to its end: the [try] block's remainder on
    fulfilment, the [catch] block on rejection, and [finally]. *)
Definition refresh_resume (r : Settled) : M unit :=
  match r with
  | Fulfilled data =>
      set Sig.opportunities data ;;
      now <- new_Date ;;
      set Sig.lastUpdated (Some now)
  | Rejected e =>
      let message :=
        match e with
        | ErrorInstance m => m
        | OtherValue => "Failed to fetch data"
        end in
      set Sig.error (Some message)
  end ;;
  set Sig.loading false ;;
  with_env (fun r =>
    {| timers := timers r; nextHandle := nextHandle r; awaiting := pred (awaiting r);
       clock := clock r; destroyed := destroyed r; log := log r |}).

(** A whole [refresh] during which nothing else runs. *)
Definition refresh (r : Settled) : M unit :=
  refresh_begin ;; refresh_resume r.

Definition toggleAutoRefresh : M unit :=
  update Sig.autoRefreshEnabled negb.

Definition updateMinDiff (value : Input) : M unit :=
  let parsed := Number value in
  set Sig.minDiffPercent (if Number_isNaN parsed then ofZ 0 else parsed).

Definition updateAutoInterval (value : Input) : M unit :=
  let numeric := Number value in
  let sanitized :=
    Math_max MIN_REFRESH_INTERVAL
      (if Number_isNaN numeric then MIN_REFRESH_INTERVAL else numeric) in
  set Sig.autoRefreshMs sanitized.

Definition clearSearch : M unit :=
  set Sig.search EmptyString.

Definition stopAutoRefresh : M unit :=
  t <- get Sig.refreshTimer ;;
  match t with
  | Some h => clearInterval h ;; set Sig.refreshTimer None
  | None => ret tt
  end.

Definition startAutoRefresh (intervalMs : number) : M unit :=
  stopAutoRefresh ;;
  let ms := Math_max MIN_REFRESH_INTERVAL intervalMs in
  refresh_begin ;;
  h <- setInterval ms ;;
  set Sig.refreshTimer (Some h).

(** The body of the constructor's [effect].  The framework runs it once
    after construction and again whenever a signal it read has changed:
    [autoRefreshEnabled], [autoRefreshMs] and, through the synchronous part
    of [refresh], [apiBase] and [minDiffPercent].  The signal writes of
    [refresh] are taken to be allowed inside an effect. *)
Definition autoRefreshEffect : M unit :=
  enabled <- get Sig.autoRefreshEnabled ;;
  interval <- get Sig.autoRefreshMs ;;
  if enabled then startAutoRefresh interval else stopAutoRefresh.

(** The [DestroyRef.onDestroy] callback, after which the effect is gone. *)
Definition onDestroy : M unit :=
  stopAutoRefresh ;;
  with_env (fun r =>
    {| timers := timers r; nextHandle := nextHandle r; awaiting := awaiting r;
       clock := clock r; destroyed := true; log := log r |}).

(** The field initialisers. *)
Definition fields : AppComponent :=
  {| apiBase := DEFAULT_API_BASE;
     minDiffPercent := Finite (1 # 2);
     search := EmptyString;
     autoRefreshMs := ofZ 15000;
     autoRefreshEnabled := false;
     opportunities := [];
     loading := false;
     error := None;
     lastUpdated := None;
     refreshTimer := None |}.

(** The component once its constructor has run, in a runtime whose next
    timer handle is [h0] and whose clock reads [t0]: the first [refresh] is
    under way, the effect and the destroy callback are registered. *)
Definition constructed (h0 : handle) (t0 : N) : World :=
  exec refresh_begin
    {| self := fields;
       env := {| timers := []; nextHandle := h0; awaiting := 0; clock := t0;
                 destroyed := false; log := [] |} |}.

(* ------------------------------------------------------------------ *)
(** *** What can happen to a constructed component *)

Inductive Event : Type :=
| RunEffect                          (* the framework (re)runs the effect *)
| ManualRefresh                      (* the user asks for a refresh *)
| ToggleAutoRefresh
| UpdateMinDiff (value : Input)
| UpdateAutoInterval (value : Input)
| SetSearch (s : string)             (* the search box writes its signal *)
| ClearSearch
| SetApiBase (s : string)            (* the API base box writes its signal *)
| Tick (h : handle)                  (* the runtime fires interval timer h *)
| Settle (r : Settled)               (* an awaited request settles *)
| Elapse (dt : N)                    (* time passes *)
| Destroy.                           (* the component is torn down *)

Definition isLive (h : handle) (r : Runtime) : bool :=
  existsb (fun t => Pos.eqb (timerId t) h) (timers r).

(** Timer [h] fires: its wait starts over and its callback runs. *)
Definition fire (h : handle) : M unit :=
  with_env (fun r =>
    {| timers := map (fun t => if Pos.eqb (timerId t) h
                               then {| timerId := h; delay := delay t; elapsed := 0 |}
                               else t) (timers r);
       nextHandle := nextHandle r; awaiting := awaiting r;
       clock := clock r; destroyed := destroyed r; log := log r |}) ;;
  refresh_begin.

Definition elapse (dt : N) : M unit :=
  with_env (fun r =>
    {| timers := map (fun t => {| timerId := timerId t; delay := delay t;
                                  elapsed := elapsed t + dt |}) (timers r);
       nextHandle := nextHandle r; awaiting := awaiting r;
       clock := clock r + dt; destroyed := destroyed r; log := log r |}).

(** One event; [None] when the event cannot happen in that world: the
    framework runs no effect of a destroyed component, the runtime fires
    only live timers, and only an awaited request can settle.  When the
    runtime chooses to fire a live timer is left open. *)
Definition step (e : Event) (w : World) : option World :=
  match e with
  | RunEffect =>
      if destroyed (env w) then None else Some (exec autoRefreshEffect w)
  | ManualRefresh => Some (exec refresh_begin w)
  | ToggleAutoRefresh => Some (exec toggleAutoRefresh w)
  | UpdateMinDiff v => Some (exec (updateMinDiff v) w)
  | UpdateAutoInterval v => Some (exec (updateAutoInterval v) w)
  | SetSearch s => Some (exec (set Sig.search s) w)
  | ClearSearch => Some (exec clearSearch w)
  | SetApiBase s => Some (exec (set Sig.apiBase s) w)
  | Tick h => if isLive h (env w) then Some (exec (fire h) w) else None
  | Settle r =>
      match awaiting (env w) with
      | O => None
      | S _ => Some (exec (refresh_resume r) w)
      end
  | Elapse dt => Some (exec (elapse dt) w)
  | Destroy => Some (exec onDestroy w)
  end.

Fixpoint run (es : list Event) (w : World) : option World :=
  match es with
  | [] => Some w
  | e :: es' =>
      match step e w with
      | Some w' => run es' w'
      | None => None
      end
  end.

(** The worlds a constructed component can be in. *)
Definition reachable (w : World) : Prop :=
  exists h0 t0 es, run es (constructed h0 t0) = Some w.

End Component.

End App.

Import App.
Open Scope app_scope.
Open Scope string_scope.

(* ================================================================== *)
(** ** What the properties are stated with *)

(** Descending by [netDiff]: every record is [>=] every later one. *)
Definition sortedDesc (l : list ArbitrageOpportunity) : Prop :=
  StronglySorted (fun a b => js_ge (netDiff a) (netDiff b) = true) l.

(** The records of [l] whose [netDiff] is [k], in the order of [l]. *)
Definition withNetDiff (k : number) (l : list ArbitrageOpportunity) :
  list ArbitrageOpportunity :=
  filter (fun r => js_eq (netDiff r) k) l.

(** The raw records that pass both filters of [filtered], in raw order. *)
Definition kept (c : AppComponent) : list ArbitrageOpportunity :=
  filter (fun r => matchesQuery (toUpperCase (trim (search c))) r
                   && meetsThreshold (minDiffPercent c) r)
    (opportunities c).

(** The search text as [filtered] uses it. *)
Definition queryOf (c : AppComponent) : string :=
  toUpperCase (trim (search c)).

(** The number of requests in a log. *)
Definition fetches (l : list Effect) : nat :=
  List.length (filter (fun e => match e with HttpGet _ => true | _ => false end) l).

(** The handles of the live timers. *)
Definition liveHandles (w : World) : list handle :=
  map timerId (timers (env w)).

Definition handleList (t : option handle) : list handle :=
  match t with Some h => [h] | None => [] end.

(** The message [refresh] records for a thrown value. *)
Definition messageOf (e : Thrown) : string :=
  match e with
  | ErrorInstance m => m
  | OtherValue => "Failed to fetch data"
  end.

(** Whether a request carries the query parameter [name]. *)
Definition carries (name : string) (q : Request) : bool :=
  existsb (fun p => String.eqb (fst p) name) (params q).

(** The scheduler's invariant: the live timers are exactly the one the
    component holds a handle of, if it holds one. *)
Definition timerOwned (w : World) : Prop :=
  liveHandles w = handleList (refreshTimer (self w)).

(** The stored interval respects the floor. *)
Definition intervalClamped (w : World) : Prop :=
  js_ge (autoRefreshMs (self w)) MIN_REFRESH_INTERVAL = true.

(** Whether a text ends with a slash. *)
Fixpoint endsWithSlash (s : string) : bool :=
  match s with
  | EmptyString => false
  | String c EmptyString => Ascii.eqb c "/"
  | String _ s' => endsWithSlash s'
  end.

(** A request as [refresh] may send it for some API base and some
    threshold that is not NaN. *)
Definition sanitizedRequest (NumberToString : number -> string) (q : Request) : Prop :=
  exists b t,
    Number_isNaN t = false
    /\ url q = stripTrailingSlash b ++ "/api/arbitrage"
    /\ params q = [("minDiffPercent", NumberToString t)].

(** A text of white space only. *)
Fixpoint blank (s : string) : bool :=
  match s with
  | EmptyString => true
  | String c s' => isWhiteSpace c && blank s'
  end.

(** The keys an [ngFor] with [trackBy: trackBySymbol] gives the rows of a
    list: the function is called with each row's index and item. *)
Definition trackKeys (l : list ArbitrageOpportunity) : list string :=
  map (fun p => trackBySymbol (fst p) (snd p)) (combine (seq 0 (List.length l)) l).

(** The events that write a signal [filtered] reads. *)
Definition touchesView (e : Event) : bool :=
  match e with
  | Settle (Fulfilled _) | UpdateMinDiff _ | SetSearch _ | ClearSearch => true
  | _ => false
  end.

(** How many timers a log arms, and how many it clears. *)
Definition armed (l : list Effect) : nat :=
  List.length (filter (fun e => match e with SetInterval _ _ => true | _ => false end) l).

Definition cleared (l : list Effect) : nat :=
  List.length (filter (fun e => match e with ClearInterval _ => true | _ => false end) l).

(** Every timer a log arms is armed with at least the floor. *)
Definition armedAboveFloor (l : list Effect) : Prop :=
  Forall (fun e => match e with
                   | SetInterval _ ms => js_ge ms MIN_REFRESH_INTERVAL = true
                   | _ => True
                   end) l.

(** The handle the component holds was handed out already. *)
Definition handleFresh (w : World) : Prop :=
  forall h, refreshTimer (self w) = Some h -> (h < nextHandle (env w))%positive.

Definition isFailure (e : Event) : bool :=
  match e with Settle (Rejected _) => true | _ => false end.

(* ================================================================== *)
(** ** Concrete inputs *)

Module Examples.

Definition leg : OpportunityLeg :=
  {| exchange := "binance"; price := ofZ 0; effectivePrice := ofZ 0;
     feePercentApplied := ofZ 0 |}.

(** A record of the given symbol and [netDiff]. *)
Definition quote (s : string) (n : number) : ArbitrageOpportunity :=
  {| symbol := s; min := ofZ 0; max := ofZ 0; diff := ofZ 0; netDiff := n;
     buy := leg; sell := leg; exchanges := [] |}.

(** The component with the given raw records, threshold and search text. *)
Definition showing (l : list ArbitrageOpportunity) (t : number) (s : string) :
  AppComponent :=
  {| apiBase := DEFAULT_API_BASE; minDiffPercent := t; search := s;
     autoRefreshMs := ofZ 15000; autoRefreshEnabled := false;
     opportunities := l; loading := false; error := None;
     lastUpdated := None; refreshTimer := None |}.

(** The raw record set of the spec's examples. *)
Definition BTC : ArbitrageOpportunity := quote "BTC" (Finite (12 # 10)).
Definition ETH : ArbitrageOpportunity := quote "ETH" (Finite (12 # 10)).
Definition LTC : ArbitrageOpportunity := quote "LTC" (Finite (3 # 10)).
Definition raw : list ArbitrageOpportunity := [BTC; ETH; LTC].

(** A record whose [netDiff] is NaN. *)
Definition odd : ArbitrageOpportunity := quote "XRP" NaN.

(** The spec's first example: threshold 0.5, no search text. *)
Definition dashboard : AppComponent := showing raw (Finite (1 # 2)) EmptyString.

(** A finite threshold over a record set that holds a NaN record. *)
Definition oddOnly : AppComponent := showing [odd] (Finite (1 # 2)) EmptyString.

(** The spec's second example, typed with a space in front. *)
Definition padded : AppComponent := showing raw (Finite (1 # 2)) " et".

(** A search text that is one space. *)
Definition blankSearch : AppComponent := showing raw (Finite (1 # 2)) " ".

(** No threshold filter (the threshold is not finite) and a NaN record
    between two ordinary ones. *)
Definition one : ArbitrageOpportunity := quote "ADA" (ofZ 1).
Definition two : ArbitrageOpportunity := quote "SOL" (ofZ 2).
Definition unfiltered : AppComponent := showing [one; odd; two] PosInfinity EmptyString.

(** The language's two conversions, tabulated on the values the examples
    pass through them: [Number] on "Infinity", "2500", "250", the empty
    string and "abc", [String] on NaN, the infinities, 0.5 and 0.  No
    example reads these tables anywhere else. *)
Definition sampleNumber (s : string) : number :=
  if String.eqb s "Infinity" then PosInfinity
  else if String.eqb s "2500" then ofZ 2500
  else if String.eqb s "250" then ofZ 250
  else if String.eqb s EmptyString then ofZ 0
  else NaN.

Definition sampleString (n : number) : string :=
  match n with
  | NaN => "NaN"
  | PosInfinity => "Infinity"
  | NegInfinity => "-Infinity"
  | Finite q =>
      if Qeq_bool q (1 # 2) then "0.5"
      else if Qeq_bool q 0 then "0"
      else EmptyString
  end.

(** A freshly constructed component: handles start at 1, the clock at 0. *)
Definition fresh : World := constructed sampleString 1%positive 0%N.

(** The user turns auto-refresh on, waits, shortens the interval below the
    floor, and the timer fires once. *)
Definition session : list Event :=
  [RunEffect; ToggleAutoRefresh; RunEffect; Elapse 700%N;
   UpdateAutoInterval (StringValue "250"); RunEffect; Elapse 1000%N;
   Tick 2%positive].

(** A manual refresh while the constructor's refresh is still awaited; one
    of the two requests fails, then the other succeeds. *)
Definition overlap : list Event :=
  [ManualRefresh; Settle (Rejected OtherValue); Settle (Fulfilled raw)].

(** The user enters "Infinity" as the threshold and refreshes. *)
Definition noThreshold : list Event :=
  [UpdateMinDiff (StringValue "Infinity"); ManualRefresh].

End Examples.

(** Worlds the further properties are tried on. *)
Module Worlds.

(** Auto-refresh switched on, the effect run, 700 ms gone. *)
Definition startUp : list Event :=
  [RunEffect; ToggleAutoRefresh; RunEffect; Elapse 700%N].

Definition running : World :=
  Eval vm_compute in
    match run Examples.sampleNumber Examples.sampleString startUp Examples.fresh with
    | Some w => w
    | None => Examples.fresh
    end.

(** The session of the examples, a first response, then teardown and what
    may still happen after it. *)
Definition shutDown : list Event :=
  (Examples.session
     ++ [Settle (Fulfilled Examples.raw); Destroy; ToggleAutoRefresh; Elapse 50%N])%list.

Definition torn : World :=
  Eval vm_compute in
    match run Examples.sampleNumber Examples.sampleString shutDown Examples.fresh with
    | Some w => w
    | None => Examples.fresh
    end.

(** A world showing the spec's example records. *)
Definition viewing : World :=
  {| self := Examples.dashboard; env := env Examples.fresh |}.

End Worlds.

(* ================================================================== *)
(** ** Properties *)

(** *** Numbers *)

Lemma ge_not_NaN a b : js_ge a b = true -> Number_isNaN a = false /\ Number_isNaN b = false.
Proof. destruct a, b; simpl; intros H; try discriminate; auto. Qed.

Lemma ge_trans a b c : js_ge a b = true -> js_ge b c = true -> js_ge a c = true.
Proof.
  destruct a, b, c; simpl; intros H1 H2; try discriminate; auto.
  apply Qle_bool_iff in H1, H2. apply Qle_bool_iff.
  eapply Qle_trans; eauto.
Qed.

Lemma lt_ge a b : js_lt a b = true -> js_ge b a = true.
Proof.
  destruct a, b; simpl; intros H; try discriminate; auto.
  apply negb_true_iff in H. apply Qle_bool_iff.
  destruct (Qlt_le_dec q q0) as [Hlt | Hle].
  - apply Qlt_le_weak; exact Hlt.
  - apply Qle_bool_iff in Hle. congruence.
Qed.

Lemma ge_false_lt a b :
  Number_isNaN a = false -> Number_isNaN b = false -> js_ge a b = false -> js_lt a b = true.
Proof.
  destruct a, b; simpl; intros Ha Hb H; try discriminate; auto.
  rewrite H. reflexivity.
Qed.

Lemma lt_not_same a b k :
  js_lt a b = true -> js_eq a k = true -> js_eq b k = true -> False.
Proof.
  destruct a, b, k; simpl; intros H Ha Hb; try discriminate.
  apply negb_true_iff in H.
  apply Qeq_bool_iff in Ha, Hb.
  assert (Hle : Qle q0 q) by (rewrite Ha, Hb; apply Qle_refl).
  apply Qle_bool_iff in Hle. congruence.
Qed.

(** The comparator's sign says "after" exactly when the first record's
    [netDiff] is the smaller one. *)
Lemma sign_sub_Gt a b : sign (js_sub b a) = Gt <-> js_lt a b = true.
Proof.
  destruct a, b; simpl; split; intros H; try discriminate; auto.
  - apply negb_true_iff. rewrite <- Qgt_alt in H.
    destruct (Qle_bool q0 q) eqn:E; auto.
    apply Qle_bool_iff in E.
    apply Qlt_minus_iff in H. exfalso.
    exact (Qlt_not_le _ _ H E).
  - apply negb_true_iff in H. rewrite <- Qgt_alt.
    destruct (Qlt_le_dec q q0) as [Hlt | Hle].
    + apply Qlt_minus_iff in Hlt. apply Qlt_minus_iff.
      setoid_replace (q0 - q + - 0)%Q with (q0 + - q)%Q by ring. exact Hlt.
    + apply Qle_bool_iff in Hle. congruence.
Qed.

(** Without NaN, "not after" means "at least as large". *)
Lemma ge_false_lt_contra a b :
  Number_isNaN a = false -> Number_isNaN b = false -> sign (js_sub b a) <> Gt -> js_ge a b = true.
Proof.
  intros Ha Hb H. destruct (js_ge a b) eqn:E; [reflexivity |].
  exfalso. apply H. apply sign_sub_Gt. apply ge_false_lt; assumption.
Qed.

(** The larger of the floor and a number that is not NaN is at least the
    floor. *)
Lemma Math_max_floor n :
  Number_isNaN n = false ->
  js_ge (Math_max MIN_REFRESH_INTERVAL n) MIN_REFRESH_INTERVAL = true
  /\ js_lt (Math_max MIN_REFRESH_INTERVAL n) MIN_REFRESH_INTERVAL = false.
Proof.
  destruct n as [| | q |]; cbn; intros Hn; try discriminate; auto.
  destruct (Qle_bool q (inject_Z 1000)) eqn:E; cbn; [auto |].
  assert (H : Qle_bool (inject_Z 1000) q = true).
  { apply Qle_bool_iff.
    destruct (Qlt_le_dec (inject_Z 1000) q) as [Hlt | Hle].
    - apply Qlt_le_weak. exact Hlt.
    - apply Qle_bool_iff in Hle. congruence. }
  rewrite H. auto.
Qed.

(** *** Sorting *)

Section SortFacts.
Variable A : Type.
Variable key : A -> number.

Let cmp (a b : A) : number := js_sub (key b) (key a).

Lemma insert_perm x l : Permutation (JSArray.insert cmp x l) (x :: l).
Proof.
  induction l as [| y l IH]; simpl.
  - apply Permutation_refl.
  - destruct (sign (cmp x y)); try apply Permutation_refl.
    eapply perm_trans; [apply perm_skip, IH | apply perm_swap].
Qed.

Lemma sort_perm l : Permutation (JSArray.sort cmp l) l.
Proof.
  induction l as [| x l IH]; simpl.
  - apply perm_nil.
  - eapply perm_trans; [apply insert_perm | apply perm_skip, IH].
Qed.

Lemma sort_In l x : In x (JSArray.sort cmp l) <-> In x l.
Proof.
  split; apply Permutation_in;
    [apply sort_perm | apply Permutation_sym, sort_perm].
Qed.

(** Inserting never moves a record past one with the same key. *)
Lemma insert_stable k x l :
  filter (fun a => js_eq (key a) k) (JSArray.insert cmp x l) =
  filter (fun a => js_eq (key a) k) (x :: l).
Proof.
  induction l as [| y l IH]; [reflexivity |].
  cbn [JSArray.insert].
  destruct (sign (cmp x y)) eqn:E; try reflexivity.
  apply sign_sub_Gt in E.
  cbn [filter] in *. rewrite IH.
  destruct (js_eq (key x) k) eqn:Ex;
    destruct (js_eq (key y) k) eqn:Ey; try reflexivity.
  exfalso. exact (lt_not_same _ _ _ E Ex Ey).
Qed.

Lemma sort_stable k l :
  filter (fun a => js_eq (key a) k) (JSArray.sort cmp l) =
  filter (fun a => js_eq (key a) k) l.
Proof.
  induction l as [| x l IH]; [reflexivity |].
  cbn [JSArray.sort]. rewrite insert_stable.
  cbn [filter]. rewrite IH. reflexivity.
Qed.

Let desc (a b : A) : Prop := js_ge (key a) (key b) = true.

Lemma insert_sorted x l :
  Number_isNaN (key x) = false ->
  Forall (fun a => Number_isNaN (key a) = false) l ->
  StronglySorted desc l ->
  StronglySorted desc (JSArray.insert cmp x l).
Proof.
  intros Hx Hl Hs. induction Hs as [| y l Hs IH Hy].
  - simpl. constructor; constructor.
  - inversion Hl as [| ? ? Hny Hl']; subst.
    cbn [JSArray.insert].
    destruct (sign (cmp x y)) eqn:E.
    + assert (Hxy : desc x y).
      { apply ge_false_lt_contra; auto. unfold cmp in E. congruence. }
      constructor; [constructor; assumption |].
      constructor; [exact Hxy |].
      eapply Forall_impl; [| exact Hy].
      intros a Ha. eapply ge_trans; eauto.
    + assert (Hxy : desc x y).
      { apply ge_false_lt_contra; auto. unfold cmp in E. congruence. }
      constructor; [constructor; assumption |].
      constructor; [exact Hxy |].
      eapply Forall_impl; [| exact Hy].
      intros a Ha. eapply ge_trans; eauto.
    + apply sign_sub_Gt in E. apply lt_ge in E.
      constructor; [apply IH; assumption |].
      eapply Permutation_Forall; [apply Permutation_sym, insert_perm |].
      constructor; assumption.
Qed.

Lemma sort_sorted l :
  Forall (fun a => Number_isNaN (key a) = false) l ->
  StronglySorted desc (JSArray.sort cmp l).
Proof.
  induction l as [| x l IH]; intros H; simpl.
  - constructor.
  - inversion H; subst. apply insert_sorted; auto.
    eapply Permutation_Forall; [apply Permutation_sym, sort_perm | assumption].
Qed.

End SortFacts.

(** *** Strings *)

Lemma startsWith_spec s q :
  startsWith s q = true <-> exists post, s = q ++ post.
Proof.
  revert s. induction q as [| b q IH]; intros s; simpl.
  - split; [intros _; exists s; reflexivity | intros _; destruct s; reflexivity].
  - destruct s as [| a s]; simpl.
    + split; [discriminate | intros [post H]; discriminate].
    + rewrite andb_true_iff, Ascii.eqb_eq, IH. split.
      * intros [-> [post ->]]. exists post. reflexivity.
      * intros [post H]. injection H as -> ->. split; [reflexivity | eauto].
Qed.

(** [includes] is the substring test. *)
Lemma includes_spec s q :
  includes s q = true <-> exists pre post, s = pre ++ q ++ post.
Proof.
  induction s as [| a s IH].
  - cbn [includes]. rewrite orb_false_r. split.
    + intros H. apply startsWith_spec in H. destruct H as [post H].
      exists EmptyString, post. exact H.
    + intros [pre [post H]]. apply startsWith_spec.
      destruct pre; [eauto | discriminate].
  - cbn [includes]. rewrite orb_true_iff. split.
    + intros [H | H].
      * apply startsWith_spec in H. destruct H as [post H].
        exists EmptyString, post. exact H.
      * apply IH in H. destruct H as [pre [post H]].
        exists (String a pre), post. simpl. rewrite H. reflexivity.
    + intros [pre [post H]]. destruct pre as [| b pre].
      * left. apply startsWith_spec. exists post. exact H.
      * right. apply IH. simpl in H. injection H as _ H. eauto.
Qed.

(** *** The derived view *)

Lemma filter_twice (A : Type) (f g : A -> bool) (l : list A) :
  filter g (filter f l) = filter (fun x => f x && g x) l.
Proof.
  induction l as [| x l IH]; simpl; [reflexivity |].
  destruct (f x); simpl; [destruct (g x) |]; rewrite IH; reflexivity.
Qed.

(** [filtered] is the sort of the kept records. *)
Lemma filtered_kept c : filtered c = JSArray.sort byNetDiffDesc (kept c).
Proof. unfold filtered, kept. rewrite filter_twice. reflexivity. Qed.

Lemma filtered_In c r :
  In r (filtered c) <->
  In r (opportunities c) /\ matchesQuery (queryOf c) r = true
  /\ meetsThreshold (minDiffPercent c) r = true.
Proof.
  rewrite filtered_kept. unfold byNetDiffDesc.
  rewrite (sort_In netDiff). unfold kept, queryOf.
  rewrite filter_In, andb_true_iff. reflexivity.
Qed.

(** C1 (as amended).  With a finite threshold every record of the view has
    [netDiff >= minDiffPercent], and a raw record that passes the search
    filter is left out only if [netDiff >= minDiffPercent] does not hold:
    its [netDiff] is below the threshold or, the one case where the two
    differ, is NaN.  With a threshold that is not finite no record is left
    out because of the threshold. *)
Theorem filtered_threshold (c : AppComponent) (r : ArbitrageOpportunity) :
  let t := minDiffPercent c in
  (Number_isFinite t = true -> In r (filtered c) -> js_ge (netDiff r) t = true)
  /\ (Number_isFinite t = true ->
      In r (opportunities c) -> matchesQuery (queryOf c) r = true ->
      ~ In r (filtered c) ->
      js_ge (netDiff r) t = false
      /\ (Number_isNaN (netDiff r) = false -> js_lt (netDiff r) t = true))
  /\ (Number_isFinite t = false ->
      In r (opportunities c) -> matchesQuery (queryOf c) r = true ->
      In r (filtered c)).
Proof.
  intros t. subst t. split; [| split].
  - intros Hfin Hin. apply filtered_In in Hin.
    destruct Hin as [_ [_ Ht]]. unfold meetsThreshold in Ht.
    rewrite Hfin in Ht. exact Ht.
  - intros Hfin Hin Hq Hout.
    assert (E : js_ge (netDiff r) (minDiffPercent c) = false).
    { destruct (js_ge (netDiff r) (minDiffPercent c)) eqn:E; [| reflexivity].
      exfalso. apply Hout. apply filtered_In. repeat split; auto.
      unfold meetsThreshold. rewrite Hfin. exact E. }
    split; [exact E |].
    intros Hnan. apply ge_false_lt; auto.
    destruct (minDiffPercent c); simpl in *; congruence.
  - intros Hfin Hin Hq. apply filtered_In. repeat split; auto.
    unfold meetsThreshold. rewrite Hfin. reflexivity.
Qed.

Lemma filtered_threshold_witness :
  js_ge (netDiff Examples.BTC) (minDiffPercent Examples.dashboard) = true
  /\ In Examples.one (filtered Examples.unfiltered).
Proof.
  destruct (filtered_threshold Examples.dashboard Examples.BTC) as [Hge _].
  destruct (filtered_threshold Examples.unfiltered Examples.one) as [_ [_ Hin]].
  split.
  - apply Hge.
    + reflexivity.
    + vm_compute. left. reflexivity.
  - apply Hin.
    + reflexivity.
    + left. reflexivity.
    + reflexivity.
Defined.

(** C1 as stated fails on a record whose [netDiff] is NaN: it passes the
    search filter and is left out under a finite threshold, yet its
    [netDiff] is not below the threshold. *)
Lemma threshold_drops_NaN_record :
  Number_isFinite (minDiffPercent Examples.oddOnly) = true
  /\ In Examples.odd (opportunities Examples.oddOnly)
  /\ matchesQuery (queryOf Examples.oddOnly) Examples.odd = true
  /\ ~ In Examples.odd (filtered Examples.oddOnly)
  /\ js_lt (netDiff Examples.odd) (minDiffPercent Examples.oddOnly) = false.
Proof.
  repeat split.
  - left. reflexivity.
  - vm_compute. intros H. exact H.
Qed.

(** C2 (as amended).  The search text is trimmed before it is used.  When
    the trimmed text is not empty, the view holds only records whose
    upper-cased symbol contains the upper-cased trimmed text; when it is
    empty (the search text is empty or white space only), no record is
    left out because of the search. *)
Theorem filtered_search (c : AppComponent) (r : ArbitrageOpportunity) :
  queryOf c = toUpperCase (trim (search c))
  /\ (queryOf c <> EmptyString -> In r (filtered c) ->
      includes (toUpperCase (symbol r)) (queryOf c) = true)
  /\ (queryOf c = EmptyString ->
      In r (opportunities c) -> meetsThreshold (minDiffPercent c) r = true ->
      In r (filtered c)).
Proof.
  split; [reflexivity | split].
  - intros Hq Hin. apply filtered_In in Hin. destruct Hin as [_ [Hm _]].
    unfold matchesQuery in Hm.
    destruct (queryOf c); [congruence | exact Hm].
  - intros Hq Hin Ht. apply filtered_In. repeat split; auto.
    rewrite Hq. reflexivity.
Qed.

Lemma filtered_search_witness :
  includes (toUpperCase (symbol Examples.ETH)) (queryOf Examples.padded) = true
  /\ In Examples.BTC (filtered Examples.blankSearch).
Proof.
  destruct (filtered_search Examples.padded Examples.ETH) as [_ [Hq _]].
  destruct (filtered_search Examples.blankSearch Examples.BTC) as [_ [_ He]].
  split.
  - apply Hq.
    + vm_compute. discriminate.
    + vm_compute. left. reflexivity.
  - apply He.
    + reflexivity.
    + left. reflexivity.
    + reflexivity.
Defined.

(** C2 as stated fails on a search text of one space: the text is not
    empty, the view holds BTC, and "BTC" does not contain a space. *)
Lemma blank_search_keeps_everything :
  search Examples.blankSearch <> EmptyString
  /\ In Examples.BTC (filtered Examples.blankSearch)
  /\ includes (toUpperCase (symbol Examples.BTC))
       (toUpperCase (search Examples.blankSearch)) = false.
Proof.
  repeat split.
  - discriminate.
  - vm_compute. left. reflexivity.
Qed.

(** The threshold filter lets no NaN record through. *)
Lemma kept_no_NaN c :
  Number_isFinite (minDiffPercent c) = true
  \/ Forall (fun r => Number_isNaN (netDiff r) = false) (opportunities c) ->
  Forall (fun r => Number_isNaN (netDiff r) = false) (kept c).
Proof.
  intros [Hfin | Hall]; apply Forall_forall; intros r Hin;
    apply filter_In in Hin; destruct Hin as [Hin Hp].
  - apply andb_true_iff in Hp. destruct Hp as [_ Ht].
    unfold meetsThreshold in Ht. rewrite Hfin in Ht.
    apply ge_not_NaN in Ht. tauto.
  - rewrite Forall_forall in Hall. auto.
Qed.

(** C3 (as amended).  When the threshold is finite, or no raw record has a
    NaN [netDiff], the view is the kept records rearranged so that every
    record's [netDiff] is [>=] that of every later record, and for each
    value of [netDiff] the records of the view with that value are the
    kept raw records with that value, in raw order. *)
Theorem filtered_sorted_stable (c : AppComponent) :
  Number_isFinite (minDiffPercent c) = true
  \/ Forall (fun r => Number_isNaN (netDiff r) = false) (opportunities c) ->
  Permutation (filtered c) (kept c)
  /\ sortedDesc (filtered c)
  /\ forall k, withNetDiff k (filtered c) = withNetDiff k (kept c).
Proof.
  intros H. rewrite filtered_kept. unfold byNetDiffDesc. repeat split.
  - apply (sort_perm netDiff).
  - apply (sort_sorted netDiff). apply kept_no_NaN. exact H.
  - intros k. apply (sort_stable netDiff).
Qed.

Lemma filtered_sorted_stable_witness :
  filtered Examples.dashboard = [Examples.BTC; Examples.ETH]
  /\ sortedDesc (filtered Examples.dashboard)
  /\ withNetDiff (Finite (12 # 10)) (filtered Examples.dashboard)
     = [Examples.BTC; Examples.ETH].
Proof.
  destruct (filtered_sorted_stable Examples.dashboard) as [_ [Hs Hk]].
  - left. reflexivity.
  - split; [reflexivity | split; [exact Hs |]].
    rewrite Hk. reflexivity.
Defined.

(** A descending list of two or more records holds no NaN: a NaN
    [netDiff] is neither [>=] nor [<=] anything. *)
Lemma sortedDesc_no_NaN l :
  sortedDesc l -> (2 <= List.length l)%nat ->
  Forall (fun r => Number_isNaN (netDiff r) = false) l.
Proof.
  intros Hs Hlen. destruct Hs as [| a l Hs Ha]; [cbn in Hlen; lia |].
  destruct l as [| b l]; [cbn in Hlen; lia |].
  inversion Ha as [| ? ? Hab _]; subst.
  constructor.
  - apply ge_not_NaN in Hab. tauto.
  - eapply Forall_impl; [| exact Ha].
    intros r Hr. apply ge_not_NaN in Hr. tauto.
Qed.

(** C3 as stated fails when the threshold is not finite and a record has a
    NaN [netDiff]: the comparator answers NaN for every pair with that
    record, nothing moves, and 1 stays ahead of 2.  No other order of the
    three records would be descending either. *)
Lemma NaN_record_breaks_order :
  filtered Examples.unfiltered = [Examples.one; Examples.odd; Examples.two]
  /\ ~ sortedDesc (filtered Examples.unfiltered)
  /\ js_lt (netDiff Examples.one) (netDiff Examples.two) = true
  /\ (forall l, Permutation l (kept Examples.unfiltered) -> ~ sortedDesc l).
Proof.
  assert (H : forall l, Permutation l (kept Examples.unfiltered) -> ~ sortedDesc l).
  { intros l Hp Hs.
    assert (Hlen : List.length l = 3%nat) by (apply Permutation_length in Hp; exact Hp).
    apply sortedDesc_no_NaN in Hs; [| lia].
    rewrite Forall_forall in Hs.
    assert (Hin : In Examples.odd l).
    { eapply Permutation_in; [apply Permutation_sym; exact Hp |].
      right. left. reflexivity. }
    apply Hs in Hin. discriminate Hin. }
  split; [reflexivity | split; [| split; [reflexivity | exact H]]].
  apply H. rewrite filtered_kept. apply (sort_perm netDiff).
Qed.

(** The spec's two examples of the derived view. *)
Lemma spec_examples :
  filtered Examples.dashboard = [Examples.BTC; Examples.ETH]
  /\ filtered (Examples.showing Examples.raw (Finite (1 # 2)) "et") = [Examples.ETH].
Proof. split; reflexivity. Qed.

(** *** The component's methods *)

Section ComponentFacts.
Variable StringToNumber : string -> number.
Variable NumberToString : number -> string.

Abbreviation refreshRequest := (refreshRequest NumberToString).
Abbreviation refresh_begin := (refresh_begin NumberToString).
Abbreviation refresh := (refresh NumberToString).
Abbreviation startAutoRefresh := (startAutoRefresh NumberToString).
Abbreviation autoRefreshEffect := (autoRefreshEffect NumberToString).
Abbreviation step := (step StringToNumber NumberToString).
Abbreviation run := (run StringToNumber NumberToString).
Abbreviation reachable := (reachable StringToNumber NumberToString).

(** Splits a world into its fields and computes. *)
Ltac world w :=
  destruct w as [[ab md se ms en ops ld er lu rt] [ts nh aw ck ds lg]];
  cbn in *.

(** What [refresh] does up to its [await]. *)
Lemma refresh_begin_exec w :
  exec refresh_begin w =
  {| self := write Sig.error None (write Sig.loading true (self w));
     env := emit (HttpGet (refreshRequest (self w)))
              {| timers := timers (env w); nextHandle := nextHandle (env w);
                 awaiting := S (awaiting (env w)); clock := clock (env w);
                 destroyed := destroyed (env w); log := log (env w) |} |}.
Proof. world w. reflexivity. Qed.

(** C4 (as amended).  For every state, [refresh] issues one GET to the API
    base (one trailing slash dropped) followed by [/api/arbitrage], and the
    request always carries the query parameter [minDiffPercent], whose
    value is [String(minDiffPercent)], whether or not the threshold is
    finite. *)
Theorem refresh_request (w : World) :
  let q := refreshRequest (self w) in
  log (env (exec refresh_begin w)) = (log (env w) ++ [HttpGet q])%list
  /\ url q = stripTrailingSlash (apiBase (self w)) ++ "/api/arbitrage"
  /\ params q = [("minDiffPercent", NumberToString (minDiffPercent (self w)))]
  /\ carries "minDiffPercent" q = true.
Proof.
  intros q. subst q. rewrite refresh_begin_exec. repeat split.
Qed.

(** C5 (as amended).  When the request of a [refresh] is rejected, the raw
    record set and [lastUpdated] are as they were, [error] holds a message
    (it is never null): the thrown [Error]'s own message, or the default
    "Failed to fetch data" when the thrown value is not an [Error]; so the
    message is empty only when an [Error] with an empty message was thrown.
    When the request is fulfilled the raw record set is the response and
    [lastUpdated] is the time of completion.  Either way [loading] is
    false afterwards.  This holds for the part of [refresh] after its
    [await], whatever ran in between, and for a whole [refresh]. *)
Theorem refresh_outcome (w : World) :
  (forall e,
      let w' := exec (refresh_resume (Rejected e)) w in
      opportunities (self w') = opportunities (self w)
      /\ lastUpdated (self w') = lastUpdated (self w)
      /\ error (self w') = Some (messageOf e)
      /\ loading (self w') = false)
  /\ (forall e,
      let w' := exec (refresh (Rejected e)) w in
      opportunities (self w') = opportunities (self w)
      /\ lastUpdated (self w') = lastUpdated (self w)
      /\ error (self w') = Some (messageOf e)
      /\ loading (self w') = false)
  /\ (forall e, messageOf e = EmptyString <-> e = ErrorInstance EmptyString)
  /\ (forall data,
      let w' := exec (refresh_resume (Fulfilled data)) w in
      opportunities (self w') = data
      /\ lastUpdated (self w') = Some (clock (env w))
      /\ loading (self w') = false)
  /\ (forall data,
      let w' := exec (refresh (Fulfilled data)) w in
      opportunities (self w') = data
      /\ lastUpdated (self w') = Some (clock (env w))
      /\ loading (self w') = false).
Proof.
  world w. repeat split; try reflexivity.
  - destruct e as [m |]; cbn; intros H; [subst; reflexivity | discriminate].
  - intros ->. reflexivity.
Qed.

(** C6.  For every input, [updateAutoInterval] stores the larger of the
    floor (1000) and [Number(value)], and the floor itself when
    [Number(value)] is NaN, so what it stores is never below the floor (nor
    NaN); [updateMinDiff] stores [Number(value)], and zero when
    [Number(value)] is NaN, so it never stores NaN. *)
Theorem sanitized_inputs (value : Input) (w : World) :
  let n := Number StringToNumber value in
  let ms := autoRefreshMs (self (exec (updateAutoInterval StringToNumber value) w)) in
  let t := minDiffPercent (self (exec (updateMinDiff StringToNumber value) w)) in
  ms = (if Number_isNaN n then MIN_REFRESH_INTERVAL else Math_max MIN_REFRESH_INTERVAL n)
  /\ js_ge ms MIN_REFRESH_INTERVAL = true
  /\ js_lt ms MIN_REFRESH_INTERVAL = false
  /\ t = (if Number_isNaN n then ofZ 0 else n)
  /\ Number_isNaN t = false.
Proof.
  intros n ms t. subst ms t.
  unfold updateAutoInterval, updateMinDiff. fold n.
  world w. generalize n. clear. intros n.
  destruct (Number_isNaN n) eqn:E.
  - repeat split.
  - destruct (Math_max_floor n E) as [Hge Hlt].
    split; [destruct n; reflexivity || discriminate |].
    repeat split; assumption.
Qed.

(** *** The scheduler *)

Lemma only_timer_cleared (l : list Timer) (h : handle) :
  map timerId l = [h] ->
  filter (fun t => negb (Pos.eqb (timerId t) h)) l = [].
Proof.
  destruct l as [| t [| t' l]]; cbn; intros H; try discriminate.
  injection H as ->. rewrite Pos.eqb_refl. reflexivity.
Qed.

Lemma fired_handles (l : list Timer) (h : handle) :
  map timerId
    (map (fun t => if Pos.eqb (timerId t) h
                   then {| timerId := h; delay := delay t; elapsed := 0 |}
                   else t) l)
  = map timerId l.
Proof.
  induction l as [| t l IH]; cbn; [reflexivity |].
  rewrite IH. destruct (Pos.eqb (timerId t) h) eqn:E; [| reflexivity].
  apply Pos.eqb_eq in E. cbn. congruence.
Qed.

Lemma elapsed_handles (l : list Timer) (dt : N) :
  map timerId
    (map (fun t => {| timerId := timerId t; delay := delay t;
                      elapsed := elapsed t + dt |}) l)
  = map timerId l.
Proof. induction l as [| t l IH]; cbn; congruence. Qed.

(** What [stopAutoRefresh] leaves when the component owns its timer. *)
Lemma stopAutoRefresh_owned w :
  timerOwned w ->
  let w' := exec stopAutoRefresh w in
  timers (env w') = []
  /\ refreshTimer (self w') = None
  /\ log (env w') =
     (log (env w) ++ map ClearInterval (handleList (refreshTimer (self w))))%list
  /\ nextHandle (env w') = nextHandle (env w)
  /\ refreshRequest (self w') = refreshRequest (self w)
  /\ autoRefreshEnabled (self w') = autoRefreshEnabled (self w)
  /\ autoRefreshMs (self w') = autoRefreshMs (self w).
Proof.
  unfold timerOwned, liveHandles. world w.
  destruct rt as [h |]; cbn in *; intros H.
  - rewrite (only_timer_cleared _ H). repeat split.
  - apply map_eq_nil in H. subst. rewrite app_nil_r. repeat split.
Qed.

(** What [startAutoRefresh] does when the component owns its timer: the
    old timer is cleared, one request goes out, then a new timer is armed
    from zero. *)
Lemma startAutoRefresh_owned w intervalMs :
  timerOwned w ->
  let w' := exec (startAutoRefresh intervalMs) w in
  let h := nextHandle (env w) in
  let ms := Math_max MIN_REFRESH_INTERVAL intervalMs in
  timers (env w') = [{| timerId := h; delay := ms; elapsed := 0 |}]
  /\ refreshTimer (self w') = Some h
  /\ log (env w') =
     (log (env w) ++ map ClearInterval (handleList (refreshTimer (self w)))
        ++ [HttpGet (refreshRequest (self w)); SetInterval h ms])%list.
Proof.
  unfold timerOwned, liveHandles. world w.
  destruct rt as [h |]; cbn in *; intros H.
  - rewrite (only_timer_cleared _ H). cbn.
    rewrite <- !app_assoc. repeat split.
  - apply map_eq_nil in H. subst. cbn.
    rewrite <- !app_assoc. repeat split.
Qed.

Lemma constructed_owned h0 t0 : timerOwned (constructed NumberToString h0 t0).
Proof. reflexivity. Qed.

Lemma step_owned e w w' : timerOwned w -> step e w = Some w' -> timerOwned w'.
Proof.
  intros Hw Hs. destruct e; cbn [App.step] in Hs;
    try (injection Hs as <-; revert Hw; unfold timerOwned, liveHandles;
         world w; intros Hw; exact Hw).
  - (* RunEffect *)
    destruct (destroyed (env w)); [discriminate |]. injection Hs as <-.
    unfold App.autoRefreshEffect.
    destruct (autoRefreshEnabled (self w)) eqn:E.
    + replace (exec _ w) with (exec (startAutoRefresh (autoRefreshMs (self w))) w)
        by (world w; subst; reflexivity).
      destruct (startAutoRefresh_owned (autoRefreshMs (self w)) Hw) as [Ht [Hr _]].
      unfold timerOwned, liveHandles. rewrite Ht, Hr. reflexivity.
    + replace (exec _ w) with (exec stopAutoRefresh w)
        by (world w; subst; reflexivity).
      destruct (stopAutoRefresh_owned Hw) as [Ht [Hr _]].
      unfold timerOwned, liveHandles. rewrite Ht, Hr. reflexivity.
  - (* Tick *)
    destruct (isLive h (env w)); [| discriminate]. injection Hs as <-.
    revert Hw. unfold timerOwned, liveHandles. world w.
    rewrite fired_handles. auto.
  - (* Settle *)
    destruct (awaiting (env w)); [discriminate |]. injection Hs as <-.
    revert Hw. unfold timerOwned, liveHandles.
    destruct r; world w; auto.
  - (* Elapse *)
    injection Hs as <-. revert Hw. unfold timerOwned, liveHandles. world w.
    rewrite elapsed_handles. auto.
  - (* Destroy *)
    injection Hs as <-.
    pose proof (stopAutoRefresh_owned Hw) as [Ht [Hr _]].
    revert Ht Hr. unfold timerOwned, liveHandles. world w.
    destruct rt; cbn; intros -> Hr; cbn in *; auto.
Qed.

Lemma run_owned es w w' : timerOwned w -> run es w = Some w' -> timerOwned w'.
Proof.
  revert w. induction es as [| e es IH]; cbn; intros w Hw Hr.
  - injection Hr as <-. exact Hw.
  - destruct (step e w) as [w1 |] eqn:E; [| discriminate].
    eapply IH; [eapply step_owned; eauto | exact Hr].
Qed.

Lemma reachable_owned w : reachable w -> timerOwned w.
Proof.
  intros [h0 [t0 [es H]]]. eapply run_owned; [apply constructed_owned | exact H].
Qed.

(** The interval signal is written by [updateAutoInterval] only, so it
    never falls below the floor. *)
Lemma step_clamped e w w' :
  intervalClamped w -> step e w = Some w' -> intervalClamped w'.
Proof.
  unfold intervalClamped. intros Hw Hs. destruct e; cbn [App.step] in Hs;
    try (injection Hs as <-; revert Hw; world w; auto; fail).
  - destruct (destroyed (env w)); [discriminate |]. injection Hs as <-.
    revert Hw. world w. destruct en, rt; cbn; auto.
  - injection Hs as <-. clear Hw. unfold updateAutoInterval.
    set (n := Number StringToNumber value). world w. generalize n. clear.
    intros n. destruct (Number_isNaN n) eqn:E; [reflexivity |].
    apply (Math_max_floor n E).
  - destruct (isLive h (env w)); [| discriminate]. injection Hs as <-.
    revert Hw. world w. auto.
  - destruct (awaiting (env w)); [discriminate |]. injection Hs as <-.
    revert Hw. destruct r; world w; auto.
  - injection Hs as <-. revert Hw. world w. destruct rt; cbn; auto.
Qed.

Lemma reachable_clamped w : reachable w -> intervalClamped w.
Proof.
  intros [h0 [t0 [es H]]]. revert H.
  assert (H0 : intervalClamped (constructed NumberToString h0 t0)) by reflexivity.
  revert H0. generalize (constructed NumberToString h0 t0).
  induction es as [| e es IH]; cbn; intros w0 H0 Hr.
  - injection Hr as <-. exact H0.
  - destruct (step e w0) as [w1 |] eqn:E; [| discriminate].
    eapply IH; [eapply step_clamped; eauto | exact Hr].
Qed.

(** C7.  In every world a constructed component can reach there is at
    most one live timer, and it is the one whose handle the component
    holds.  From such a world [startAutoRefresh] clears the timer it holds
    before it arms the new one and leaves exactly the new one alive;
    [stopAutoRefresh] (what the effect runs when auto-refresh is disabled)
    and the destroy callback leave no timer alive and no handle held. *)
Theorem one_live_timer (w : World) :
  reachable w ->
  (List.length (timers (env w)) <= 1)%nat
  /\ liveHandles w = handleList (refreshTimer (self w))
  /\ (forall intervalMs,
      let w' := exec (startAutoRefresh intervalMs) w in
      let h := nextHandle (env w) in
      liveHandles w' = [h]
      /\ refreshTimer (self w') = Some h
      /\ log (env w') =
         (log (env w) ++ map ClearInterval (handleList (refreshTimer (self w)))
            ++ [HttpGet (refreshRequest (self w));
                SetInterval h (Math_max MIN_REFRESH_INTERVAL intervalMs)])%list)
  /\ (autoRefreshEnabled (self w) = false ->
      exec autoRefreshEffect w = exec stopAutoRefresh w)
  /\ (let w' := exec stopAutoRefresh w in
      timers (env w') = [] /\ refreshTimer (self w') = None
      /\ log (env w') =
         (log (env w) ++ map ClearInterval (handleList (refreshTimer (self w))))%list)
  /\ (let w' := exec onDestroy w in
      timers (env w') = [] /\ refreshTimer (self w') = None
      /\ step RunEffect w' = None).
Proof.
  intros Hr. pose proof (reachable_owned Hr) as Hw.
  split; [| split; [exact Hw | split; [| split; [| split]]]].
  - unfold timerOwned, liveHandles in Hw.
    rewrite <- (length_map timerId), Hw.
    destruct (refreshTimer (self w)); cbn; lia.
  - intros intervalMs.
    destruct (startAutoRefresh_owned intervalMs Hw) as [Ht [Hh Hl]].
    cbv zeta. unfold liveHandles. rewrite Ht. repeat split; assumption.
  - intros He. clear Hr Hw. world w. subst. reflexivity.
  - destruct (stopAutoRefresh_owned Hw) as [Ht [Hh [Hl _]]]. auto.
  - destruct (stopAutoRefresh_owned Hw) as [Ht [Hh _]].
    revert Ht Hh. clear. world w. destruct rt; cbn; auto.
Qed.

(** C8.  Whenever the effect runs with auto-refresh enabled (it runs when
    the flag or the interval has changed), it calls [startAutoRefresh] with
    the current interval, which sends exactly one request and then arms the
    timer with [Math.max(1000, intervalMs)], never less than the floor; the
    new timer, the only live one, starts its wait from zero whatever the
    previous timer had waited. *)
Theorem effect_starts_auto_refresh (w : World) :
  reachable w ->
  autoRefreshEnabled (self w) = true ->
  let w' := exec autoRefreshEffect w in
  let h := nextHandle (env w) in
  let ms := Math_max MIN_REFRESH_INTERVAL (autoRefreshMs (self w)) in
  (destroyed (env w) = false -> step RunEffect w = Some w')
  /\ w' = exec (startAutoRefresh (autoRefreshMs (self w))) w
  /\ log (env w') =
     (log (env w) ++ map ClearInterval (handleList (refreshTimer (self w)))
        ++ [HttpGet (refreshRequest (self w)); SetInterval h ms])%list
  /\ fetches (log (env w')) = S (fetches (log (env w)))
  /\ timers (env w') = [{| timerId := h; delay := ms; elapsed := 0 |}]
  /\ refreshTimer (self w') = Some h
  /\ js_ge ms MIN_REFRESH_INTERVAL = true.
Proof.
  intros Hr He. pose proof (reachable_owned Hr) as Hw.
  pose proof (reachable_clamped Hr) as Hc. cbv zeta.
  assert (E : exec autoRefreshEffect w
              = exec (startAutoRefresh (autoRefreshMs (self w))) w).
  { clear Hr Hw Hc. world w. subst. reflexivity. }
  split.
  { intros Hd. cbn [App.step]. rewrite Hd. reflexivity. }
  rewrite E.
  destruct (startAutoRefresh_owned (autoRefreshMs (self w)) Hw) as [Ht [Hh Hl]].
  repeat split; try assumption.
  - rewrite Hl. unfold fetches. rewrite !filter_app, !length_app.
    destruct (refreshTimer (self w)); cbn; lia.
  - apply Math_max_floor. apply ge_not_NaN in Hc. tauto.
Qed.

(** C9.  In every world, a manual refresh sends one request and leaves the
    timer handle and the live timers, with their delays and the time they
    have waited, as they were: at the call, when the request settles, and
    over a whole [refresh]. *)
Theorem refresh_keeps_timer (w : World) (r : Settled) :
  step ManualRefresh w = Some (exec refresh_begin w)
  /\ log (env (exec refresh_begin w))
     = (log (env w) ++ [HttpGet (refreshRequest (self w))])%list
  /\ (refreshTimer (self (exec refresh_begin w)) = refreshTimer (self w)
      /\ timers (env (exec refresh_begin w)) = timers (env w))
  /\ (refreshTimer (self (exec (refresh_resume r) w)) = refreshTimer (self w)
      /\ timers (env (exec (refresh_resume r) w)) = timers (env w)
      /\ log (env (exec (refresh_resume r) w)) = log (env w))
  /\ (refreshTimer (self (exec (refresh r) w)) = refreshTimer (self w)
      /\ timers (env (exec (refresh r) w)) = timers (env w)).
Proof.
  destruct r as [data | e]; world w; repeat split.
Qed.

(** Nothing but a rejected request writes a message into [error]. *)
Lemma step_error_stays_null e w w' :
  isFailure e = false -> error (self w) = None ->
  step e w = Some w' -> error (self w') = None.
Proof.
  intros Hf Hn Hs. destruct e; cbn [App.step] in Hs;
    try (injection Hs as <-; revert Hn; world w; auto; fail).
  - destruct (destroyed (env w)); [discriminate |]. injection Hs as <-.
    revert Hn. world w. destruct en, rt; cbn; auto.
  - destruct (isLive h (env w)); [| discriminate]. injection Hs as <-.
    world w. reflexivity.
  - destruct (awaiting (env w)); [discriminate |]. injection Hs as <-.
    destruct r; [| discriminate]. revert Hn. world w. auto.
  - injection Hs as <-. revert Hn. world w. destruct rt; cbn; auto.
Qed.

Lemma run_error_stays_null es w w' :
  forallb (fun e => negb (isFailure e)) es = true ->
  error (self w) = None -> run es w = Some w' -> error (self w') = None.
Proof.
  revert w. induction es as [| e es IH]; cbn; intros w Hf Hn Hr.
  - injection Hr as <-. exact Hn.
  - apply andb_true_iff in Hf. destruct Hf as [He Hf].
    apply negb_true_iff in He.
    destruct (step e w) as [w1 |] eqn:E; [| discriminate].
    eapply IH; [exact Hf | eapply step_error_stays_null; eauto | exact Hr].
Qed.

(** C10 (as amended).  Every call of [refresh] sets [error] to null before
    its request goes out, and the completion of a fulfilled request leaves
    [error] as it finds it.  So [error] is null after a successful refresh
    whenever no request was rejected between the call and the completion,
    in particular after a whole [refresh] during which nothing else ran,
    whatever message an earlier refresh had recorded. *)
Theorem refresh_clears_error (w : World) :
  (exec refresh_begin w
   = exec (http_get (refreshRequest (self w)))
       (exec (set Sig.loading true ;; set Sig.error None) w)
   /\ error (self (exec (set Sig.loading true ;; set Sig.error None) w)) = None
   /\ error (self (exec refresh_begin w)) = None)
  /\ (forall data,
      error (self (exec (refresh_resume (Fulfilled data)) w)) = error (self w))
  /\ (forall data, error (self (exec (refresh (Fulfilled data)) w)) = None)
  /\ (forall es w1 data w2,
      run es (exec refresh_begin w) = Some w1 ->
      forallb (fun e => negb (isFailure e)) es = true ->
      step (Settle (Fulfilled data)) w1 = Some w2 ->
      error (self w2) = None).
Proof.
  split; [| split; [| split]].
  - world w. repeat split.
  - intros data. world w. reflexivity.
  - intros data. world w. reflexivity.
  - intros es w1 data w2 Hr Hf Hs.
    eapply (step_error_stays_null (Settle (Fulfilled data)));
      [reflexivity | | exact Hs].
    eapply run_error_stays_null; [exact Hf | | exact Hr].
    world w. reflexivity.
Qed.

End ComponentFacts.

(** *** The properties on concrete inputs *)

Lemma refresh_request_check :
  params (refreshRequest Examples.sampleString (self Examples.fresh))
  = [("minDiffPercent", "0.5")].
Proof.
  destruct (refresh_request Examples.sampleString Examples.fresh)
    as [_ [_ [H _]]].
  rewrite H. reflexivity.
Defined.

(** C4 as stated fails once the threshold is not finite: the user enters
    "Infinity", the threshold filter no longer takes part in [filtered],
    and the next refresh still sends [minDiffPercent=Infinity]. *)
Lemma refresh_sends_inactive_threshold :
  exists w,
    run Examples.sampleNumber Examples.sampleString Examples.noThreshold
      Examples.fresh = Some w
    /\ Number_isFinite (minDiffPercent (self w)) = false
    /\ carries "minDiffPercent" (refreshRequest Examples.sampleString (self w)) = true
    /\ log (env w)
       = [HttpGet {| url := DEFAULT_API_BASE ++ "/api/arbitrage";
                     params := [("minDiffPercent", "0.5")] |};
          HttpGet {| url := DEFAULT_API_BASE ++ "/api/arbitrage";
                     params := [("minDiffPercent", "Infinity")] |}].
Proof.
  eexists. split; [vm_compute; reflexivity |]. repeat split.
Qed.

(** C5 as stated fails when the thrown value is an [Error] whose message
    is empty: the message recorded in [error] is then the empty string. *)
Lemma empty_message_recorded :
  error (self (exec (refresh Examples.sampleString
                       (Rejected (ErrorInstance EmptyString))) Examples.fresh))
  = Some EmptyString.
Proof. reflexivity. Qed.

Lemma sanitized_inputs_check :
  autoRefreshMs (self (exec (updateAutoInterval Examples.sampleNumber
                               (StringValue "250")) Examples.fresh))
  = ofZ 1000
  /\ minDiffPercent (self (exec (updateMinDiff Examples.sampleNumber
                                   (StringValue "abc")) Examples.fresh))
     = ofZ 0.
Proof.
  split.
  - destruct (sanitized_inputs Examples.sampleNumber (StringValue "250")
                Examples.fresh) as [H _].
    rewrite H. reflexivity.
  - destruct (sanitized_inputs Examples.sampleNumber (StringValue "abc")
                Examples.fresh) as [_ [_ [_ [H _]]]].
    rewrite H. reflexivity.
Defined.

Lemma one_live_timer_witness :
  exists w,
    run Examples.sampleNumber Examples.sampleString Examples.session
      Examples.fresh = Some w
    /\ (List.length (timers (env w)) <= 1)%nat
    /\ liveHandles w = [2%positive]
    /\ timers (env (exec onDestroy w)) = [].
Proof.
  eexists. split; [vm_compute; reflexivity |].
  match goal with |- (List.length (timers (env ?w)) <= _)%nat /\ _ =>
    destruct (@one_live_timer Examples.sampleNumber Examples.sampleString w)
      as [Hlen [Hown [_ [_ [_ [Hd _]]]]]]
  end.
  - exists 1%positive, 0%N, Examples.session. vm_compute. reflexivity.
  - split; [exact Hlen | split; [exact Hown | exact Hd]].
Defined.

Lemma effect_starts_auto_refresh_witness :
  exists w,
    run Examples.sampleNumber Examples.sampleString
      [RunEffect; ToggleAutoRefresh; RunEffect; Elapse 700%N;
       UpdateAutoInterval (StringValue "250")] Examples.fresh = Some w
    /\ timers (env w)
       = [{| timerId := 1%positive; delay := ofZ 15000; elapsed := 700%N |}]
    /\ autoRefreshEnabled (self w) = true
    /\ timers (env (exec (autoRefreshEffect Examples.sampleString) w))
       = [{| timerId := 2%positive; delay := ofZ 1000; elapsed := 0%N |}]
    /\ fetches (log (env (exec (autoRefreshEffect Examples.sampleString) w)))
       = S (fetches (log (env w))).
Proof.
  eexists. split; [vm_compute; reflexivity |].
  split; [reflexivity |]. split; [reflexivity |].
  match goal with |- timers (env (exec _ ?w)) = _ /\ _ =>
    destruct (@effect_starts_auto_refresh Examples.sampleNumber
                Examples.sampleString w) as [_ [_ [_ [Hf [Ht _]]]]]
  end.
  - exists 1%positive, 0%N.
    exists [RunEffect; ToggleAutoRefresh; RunEffect; Elapse 700%N;
            UpdateAutoInterval (StringValue "250")]. vm_compute. reflexivity.
  - reflexivity.
  - split; [rewrite Ht; vm_compute; reflexivity | exact Hf].
Defined.

(** C10 as stated fails when two refreshes overlap: a manual refresh is
    called while the constructor's refresh is awaited, one request is
    rejected, then the other is fulfilled; after that successful refresh
    the records are the response and [error] still holds the message. *)
Lemma failure_outlives_success :
  exists w,
    run Examples.sampleNumber Examples.sampleString Examples.overlap
      Examples.fresh = Some w
    /\ opportunities (self w) = Examples.raw
    /\ lastUpdated (self w) = Some 0%N
    /\ loading (self w) = false
    /\ awaiting (env w) = 0%nat
    /\ error (self w) = Some "Failed to fetch data".
Proof.
  eexists. split; [vm_compute; reflexivity |]. repeat split.
Qed.

Lemma refresh_clears_error_witness :
  exists w,
    run Examples.sampleNumber Examples.sampleString
      [Settle (Rejected OtherValue)] Examples.fresh = Some w
    /\ error (self w) = Some "Failed to fetch data"
    /\ forall w1 w2,
        run Examples.sampleNumber Examples.sampleString
          [Elapse 5%N; ToggleAutoRefresh]
          (exec (refresh_begin Examples.sampleString) w) = Some w1 ->
        step Examples.sampleNumber Examples.sampleString
          (Settle (Fulfilled Examples.raw)) w1 = Some w2 ->
        error (self w2) = None.
Proof.
  eexists. split; [vm_compute; reflexivity |]. split; [reflexivity |].
  intros w1 w2 Hr Hs.
  match type of Hr with run _ _ _ (exec _ ?w) = _ =>
    destruct (@refresh_clears_error Examples.sampleNumber Examples.sampleString w)
      as [_ [_ [_ H]]]
  end.
  exact (H _ _ _ _ Hr eq_refl Hs).
Defined.

(* ================================================================== *)
(** ** Further properties *)

(** *** Strings *)

Lemma upperChar_whiteSpace c : isWhiteSpace (upperChar c) = isWhiteSpace c.
Proof. destruct c as [[] [] [] [] [] [] [] []]; reflexivity. Qed.

Lemma upperChar_idem c : upperChar (upperChar c) = upperChar c.
Proof. destruct c as [[] [] [] [] [] [] [] []]; reflexivity. Qed.

Lemma toUpperCase_idem s : toUpperCase (toUpperCase s) = toUpperCase s.
Proof.
  induction s as [| c s IH]; cbn; [reflexivity |].
  rewrite upperChar_idem, IH. reflexivity.
Qed.

Lemma toUpperCase_trimStart s : toUpperCase (trimStart s) = trimStart (toUpperCase s).
Proof.
  induction s as [| c s IH]; cbn; [reflexivity |].
  rewrite upperChar_whiteSpace. destruct (isWhiteSpace c); [exact IH | reflexivity].
Qed.

Lemma toUpperCase_trimEnd s : toUpperCase (trimEnd s) = trimEnd (toUpperCase s).
Proof.
  induction s as [| c s IH]; cbn; [reflexivity |].
  rewrite <- IH, upperChar_whiteSpace.
  destruct (trimEnd s) as [| d t]; cbn; [| reflexivity].
  destruct (isWhiteSpace c); reflexivity.
Qed.

(** Trimming and upper-casing commute. *)
Lemma toUpperCase_trim s : toUpperCase (trim s) = trim (toUpperCase s).
Proof. unfold trim. rewrite toUpperCase_trimEnd, toUpperCase_trimStart. reflexivity. Qed.

Lemma string_app_assoc (a b c : string) : (a ++ b) ++ c = a ++ b ++ c.
Proof. induction a as [| x a IH]; cbn; [reflexivity | rewrite IH; reflexivity]. Qed.

Lemma includes_trans s q2 q1 :
  includes s q2 = true -> includes q2 q1 = true -> includes s q1 = true.
Proof.
  rewrite !includes_spec. intros [pre [post ->]] [pre' [post' ->]].
  exists (pre ++ pre'), (post' ++ post).
  rewrite !string_app_assoc. reflexivity.
Qed.

Lemma includes_empty q : includes EmptyString q = true -> q = EmptyString.
Proof. destruct q; cbn; [reflexivity | discriminate]. Qed.

Lemma trimStart_blank s : blank s = true -> trimStart s = EmptyString.
Proof.
  induction s as [| c s IH]; cbn; [reflexivity |].
  intros H. apply andb_true_iff in H. destruct H as [Hc Hs].
  rewrite Hc. auto.
Qed.

Lemma trimEnd_blank s : blank s = true -> trimEnd s = EmptyString.
Proof.
  induction s as [| c s IH]; cbn; [reflexivity |].
  intros H. apply andb_true_iff in H. destruct H as [Hc Hs].
  rewrite (IH Hs), Hc. reflexivity.
Qed.

Lemma trimStart_after_blank pre s : blank pre = true -> trimStart (pre ++ s) = trimStart s.
Proof.
  induction pre as [| c pre IH]; cbn; [reflexivity |].
  intros H. apply andb_true_iff in H. destruct H as [Hc Hp].
  rewrite Hc. auto.
Qed.

Lemma trimEnd_before_blank s post : blank post = true -> trimEnd (s ++ post) = trimEnd s.
Proof.
  intros H. induction s as [| c s IH]; cbn.
  - apply trimEnd_blank. exact H.
  - rewrite IH. reflexivity.
Qed.

(** White space around a text does not survive [trim]. *)
Lemma trim_padded pre s post :
  blank pre = true -> blank post = true -> trim (pre ++ s ++ post) = trim s.
Proof.
  intros Hpre Hpost. unfold trim. rewrite trimStart_after_blank by exact Hpre.
  induction s as [| c s IH]; cbn.
  - rewrite trimStart_blank by exact Hpost. reflexivity.
  - destruct (isWhiteSpace c); [exact IH |].
    change (String c (s ++ post)) with (String c s ++ post).
    apply trimEnd_before_blank. exact Hpost.
Qed.

(** [s.replace(/\/$/, '')] undoes the appending of one slash. *)
Lemma stripTrailingSlash_added b : stripTrailingSlash (b ++ "/") = b.
Proof.
  induction b as [| c b IH]; [reflexivity |].
  cbn [append stripTrailingSlash]. rewrite IH.
  destruct b; reflexivity.
Qed.

(** *** More on the derived view *)

Lemma write_minDiffPercent_fields t c :
  minDiffPercent (write Sig.minDiffPercent t c) = t
  /\ search (write Sig.minDiffPercent t c) = search c
  /\ opportunities (write Sig.minDiffPercent t c) = opportunities c.
Proof. destruct c; repeat split. Qed.

Lemma write_search_fields s c :
  search (write Sig.search s c) = s
  /\ minDiffPercent (write Sig.search s c) = minDiffPercent c
  /\ opportunities (write Sig.search s c) = opportunities c.
Proof. destruct c; repeat split. Qed.

(** [filtered] reads three signals only. *)
Lemma filtered_reads c c' :
  search c = search c' -> minDiffPercent c = minDiffPercent c' ->
  opportunities c = opportunities c' -> filtered c = filtered c'.
Proof. unfold filtered. intros -> -> ->. reflexivity. Qed.

(** Filtering keeps the symbols distinct. *)
Lemma symbols_stay_distinct (keep : ArbitrageOpportunity -> bool)
    (rows : list ArbitrageOpportunity) :
  NoDup (map symbol rows) -> NoDup (map symbol (filter keep rows)).
Proof.
  intros Hnd. induction rows as [| x rows IH]; cbn in *; [constructor |].
  apply NoDup_cons_iff in Hnd. destruct Hnd as [Hx Hrest].
  destruct (keep x); cbn; [| auto].
  apply NoDup_cons_iff. split; [| auto].
  intros Hin. apply Hx. apply in_map_iff in Hin.
  destruct Hin as [y [Hy Hin]]. apply filter_In in Hin.
  apply in_map_iff. exists y. tauto.
Qed.

Lemma trackKeys_from (l : list ArbitrageOpportunity) (i : nat) :
  map (fun p => trackBySymbol (fst p) (snd p)) (combine (seq i (List.length l)) l)
  = map symbol l.
Proof.
  revert i. induction l as [| r l IH]; intros i; cbn; [reflexivity |].
  rewrite IH. reflexivity.
Qed.

(** X1.  Whatever the records, thresholds and search text, NaN included,
    the view is a rearrangement of the raw records that pass the two
    filters: the sort loses and duplicates nothing.  So every record shown
    is a raw record, the view is never longer than the raw set, and an
    empty raw set gives an empty view. *)
Theorem view_is_selection (c : AppComponent) :
  Permutation (filtered c) (kept c)
  /\ (forall r, In r (filtered c) -> In r (opportunities c))
  /\ (List.length (filtered c) <= List.length (opportunities c))%nat
  /\ (opportunities c = [] -> filtered c = []).
Proof.
  assert (Hp : Permutation (filtered c) (kept c)).
  { rewrite filtered_kept. apply (sort_perm netDiff). }
  split; [exact Hp | split; [| split]].
  - intros r Hin. apply filtered_In in Hin. tauto.
  - rewrite (Permutation_length Hp). apply filter_length_le.
  - intros He. apply Permutation_nil. apply Permutation_sym.
    rewrite Hp. unfold kept. rewrite He. reflexivity.
Qed.

(** X2.  Raising the threshold to a finite value never brings a record
    into the view: every record shown under the higher threshold was shown
    under the lower one. *)
Theorem raising_threshold_narrows (c : AppComponent) (t : number)
    (r : ArbitrageOpportunity) :
  Number_isFinite t = true ->
  js_ge t (minDiffPercent c) = true ->
  In r (filtered (write Sig.minDiffPercent t c)) -> In r (filtered c).
Proof.
  intros Hfin Hge Hin. apply filtered_In in Hin. apply filtered_In.
  destruct (write_minDiffPercent_fields t c) as [Ht [Hs Ho]].
  unfold queryOf in *. rewrite Ht, Hs, Ho in Hin.
  destruct Hin as [Hraw [Hq Hm]]. repeat split; auto.
  unfold meetsThreshold in *. rewrite Hfin in Hm.
  destruct (Number_isFinite (minDiffPercent c)); [| reflexivity].
  eapply ge_trans; eauto.
Qed.

Lemma raising_threshold_narrows_witness :
  In Examples.BTC (filtered Examples.dashboard).
Proof.
  apply (@raising_threshold_narrows Examples.dashboard (ofZ 1) Examples.BTC).
  - reflexivity.
  - reflexivity.
  - vm_compute. left. reflexivity.
Defined.

(** X3.  When the new search text, trimmed and upper-cased, contains the
    old one (the user typed more characters around it), the view can only
    shrink: every record shown for the new text was shown for the old. *)
Theorem longer_query_narrows (c : AppComponent) (s : string)
    (r : ArbitrageOpportunity) :
  includes (toUpperCase (trim s)) (queryOf c) = true ->
  In r (filtered (write Sig.search s c)) -> In r (filtered c).
Proof.
  intros Hinc Hin. apply filtered_In in Hin. apply filtered_In.
  destruct (write_search_fields s c) as [Hs [Ht Ho]].
  unfold queryOf in *. rewrite Hs, Ht, Ho in Hin.
  destruct Hin as [Hraw [Hq Hm]]. repeat split; auto.
  unfold matchesQuery in *.
  destruct (toUpperCase (trim (search c))) as [| a q1] eqn:E1; [reflexivity |].
  destruct (toUpperCase (trim s)) as [| b q2] eqn:E2.
  - apply includes_empty in Hinc. discriminate.
  - cbn [truthy] in *. eapply includes_trans; eauto.
Qed.

Lemma longer_query_narrows_witness :
  In Examples.ETH (filtered (Examples.showing Examples.raw (Finite (1 # 2)) "e")).
Proof.
  apply (@longer_query_narrows
           (Examples.showing Examples.raw (Finite (1 # 2)) "e") "eth" Examples.ETH).
  - reflexivity.
  - vm_compute. left. reflexivity.
Defined.

(** X4.  The view does not depend on the case of the search text: two
    texts with the same upper-case form give the same view. *)
Theorem search_ignores_case (c : AppComponent) (s1 s2 : string) :
  toUpperCase s1 = toUpperCase s2 ->
  filtered (write Sig.search s1 c) = filtered (write Sig.search s2 c).
Proof.
  intros H.
  destruct (write_search_fields s1 c) as [H1 [Ht1 Ho1]].
  destruct (write_search_fields s2 c) as [H2 [Ht2 Ho2]].
  unfold filtered. rewrite H1, H2, Ht1, Ht2, Ho1, Ho2.
  rewrite !toUpperCase_trim, H. reflexivity.
Qed.

Lemma search_ignores_case_witness :
  filtered (write Sig.search "eTh" Examples.dashboard)
  = filtered (write Sig.search "ETH" Examples.dashboard).
Proof.
  apply search_ignores_case. reflexivity.
Defined.

(** X5.  White space typed before or after the search text changes
    nothing in the view. *)
Theorem search_ignores_padding (c : AppComponent) (pre s post : string) :
  blank pre = true -> blank post = true ->
  filtered (write Sig.search (pre ++ s ++ post) c)
  = filtered (write Sig.search s c).
Proof.
  intros Hpre Hpost.
  destruct (write_search_fields (pre ++ s ++ post) c) as [H1 [Ht1 Ho1]].
  destruct (write_search_fields s c) as [H2 [Ht2 Ho2]].
  unfold filtered. rewrite H1, H2, Ht1, Ht2, Ho1, Ho2.
  rewrite trim_padded by assumption. reflexivity.
Qed.

Lemma search_ignores_padding_witness :
  filtered (write Sig.search ("  " ++ "eth" ++ " ") Examples.dashboard)
  = filtered (write Sig.search "eth" Examples.dashboard).
Proof.
  apply search_ignores_padding; reflexivity.
Defined.

(** X6.  After [clearSearch] the view holds exactly the raw records that
    meet the threshold test, so clearing the search never removes a record
    that was shown. *)
Theorem clearSearch_widens (w : World) (r : ArbitrageOpportunity) :
  let w' := exec clearSearch w in
  (In r (filtered (self w')) <->
   In r (opportunities (self w))
   /\ meetsThreshold (minDiffPercent (self w)) r = true)
  /\ (In r (filtered (self w)) -> In r (filtered (self w'))).
Proof.
  cbv zeta.
  assert (E : self (exec clearSearch w) = write Sig.search EmptyString (self w))
    by reflexivity.
  rewrite E.
  destruct (write_search_fields EmptyString (self w)) as [Hs [Ht Ho]].
  assert (H : In r (filtered (write Sig.search EmptyString (self w))) <->
              In r (opportunities (self w))
              /\ meetsThreshold (minDiffPercent (self w)) r = true).
  { rewrite filtered_In. unfold queryOf. rewrite Hs, Ht, Ho. cbn. tauto. }
  split; [exact H |].
  intros Hin. apply H. apply filtered_In in Hin. tauto.
Qed.

(** X7.  The row keys [trackBySymbol] gives the view are the symbols of
    its records, and they are pairwise distinct whenever the raw records'
    symbols are. *)
Theorem track_keys_distinct (c : AppComponent) :
  NoDup (map symbol (opportunities c)) ->
  trackKeys (filtered c) = map symbol (filtered c)
  /\ NoDup (trackKeys (filtered c)).
Proof.
  intros H. unfold trackKeys. rewrite trackKeys_from.
  split; [reflexivity |].
  eapply Permutation_NoDup.
  - apply Permutation_sym. apply Permutation_map.
    rewrite filtered_kept. apply (sort_perm netDiff).
  - unfold kept. apply symbols_stay_distinct. exact H.
Qed.

Lemma track_keys_distinct_witness :
  trackKeys (filtered Examples.dashboard) = ["BTC"; "ETH"]
  /\ NoDup (trackKeys (filtered Examples.dashboard)).
Proof.
  destruct (@track_keys_distinct Examples.dashboard) as [Hk Hn].
  - vm_compute. repeat constructor; cbn; intuition discriminate.
  - split; [rewrite Hk; reflexivity | exact Hn].
Defined.

(** [exchangesList] lists the exchanges of a record one entry each,
    in the object's own order, every entry carrying the exchange's name
    and its price: reading the entries back gives the object. *)
Lemma exchangesList_entries (o : ArbitrageOpportunity) :
  map (fun e => (Entry.name e, Entry.price e)) (exchangesList o) = exchanges o
  /\ map Entry.name (exchangesList o) = map fst (exchanges o)
  /\ List.length (exchangesList o) = List.length (exchanges o).
Proof.
  unfold exchangesList, Object_entries.
  rewrite !map_map, length_map. repeat split.
  - induction (exchanges o) as [| [n p] l IH]; cbn; [reflexivity |].
    rewrite IH. reflexivity.
  - apply map_ext. intros [n p]. reflexivity.
Qed.

(** *** More on the component *)

Section MoreComponentFacts.
Variable StringToNumber : string -> number.
Variable NumberToString : number -> string.

Abbreviation refreshRequest := (refreshRequest NumberToString).
Abbreviation refresh_begin := (refresh_begin NumberToString).
Abbreviation refresh := (refresh NumberToString).
Abbreviation startAutoRefresh := (startAutoRefresh NumberToString).
Abbreviation autoRefreshEffect := (autoRefreshEffect NumberToString).
Abbreviation constructed := (constructed NumberToString).
Abbreviation updateMinDiff := (updateMinDiff StringToNumber).
Abbreviation updateAutoInterval := (updateAutoInterval StringToNumber).
Abbreviation step := (step StringToNumber NumberToString).
Abbreviation run := (run StringToNumber NumberToString).
Abbreviation reachable := (reachable StringToNumber NumberToString).

Ltac world w :=
  destruct w as [[ab md se ms en ops ld er lu rt] [ts nh aw ck ds lg]];
  cbn in *.

(** Splits [Hs : step e w = Some w'] into the twelve events, leaving in
    each case [w'] as the world the event's code computes. *)
Ltac by_event e w Hs :=
  destruct e; cbn [App.step] in Hs;
  [ destruct (destroyed (env w)) eqn:Hdes; [discriminate | injection Hs as <-]
  | injection Hs as <- | injection Hs as <- | injection Hs as <-
  | injection Hs as <- | injection Hs as <- | injection Hs as <-
  | injection Hs as <-
  | match type of Hs with
    | (if ?b then _ else _) = _ => destruct b eqn:Hlive
    end; [injection Hs as <- | discriminate]
  | destruct (awaiting (env w)) eqn:Haw; [discriminate | injection Hs as <-]
  | injection Hs as <-
  | injection Hs as <- ].

Lemma run_app es1 es2 w w1 :
  run es1 w = Some w1 -> run (es1 ++ es2) w = run es2 w1.
Proof.
  revert w. induction es1 as [| e es1 IH]; cbn; intros w H.
  - injection H as ->. reflexivity.
  - destruct (step e w) as [w0 |]; [auto | discriminate].
Qed.

Lemma reachable_step e w w' : reachable w -> step e w = Some w' -> reachable w'.
Proof.
  intros [h0 [t0 [es H]]] Hs. exists h0, t0, (es ++ [e])%list.
  erewrite run_app by exact H. cbn. rewrite Hs. reflexivity.
Qed.

(** Induction over the worlds a constructed component can reach. *)
Lemma reachable_ind (P : World -> Prop) :
  (forall h0 t0, P (constructed h0 t0)) ->
  (forall e w w', reachable w -> P w -> step e w = Some w' -> P w') ->
  forall w, reachable w -> P w.
Proof.
  intros H0 Hstep w [h0 [t0 [es H]]].
  assert (G : forall es w0 w, reachable w0 -> P w0 -> run es w0 = Some w -> P w).
  { clear - Hstep. induction es as [| e es IH]; cbn; intros w0 w Hr Hp Hrun.
    - injection Hrun as <-. exact Hp.
    - destruct (step e w0) as [w1 |] eqn:E; [| discriminate].
      eapply IH; [eapply reachable_step; eauto | eapply Hstep; eauto | exact Hrun]. }
  eapply G; [| apply H0 | exact H].
  exists h0, t0, []. reflexivity.
Qed.

(** X8.  An event changes the view only if it is the fulfilment of a
    request or a change of the search text or the threshold: ticks, manual
    refreshes, rejected requests, auto-refresh switches, interval changes
    and teardown leave the view as it is. *)
Theorem view_changes_only_on_data (e : Event) (w w' : World) :
  step e w = Some w' -> touchesView e = false ->
  filtered (self w') = filtered (self w).
Proof.
  intros Hs Ht. apply filtered_reads;
    (by_event e w Hs; try discriminate Ht;
     try (destruct r; [discriminate Ht |]);
     world w; try reflexivity; destruct en, rt; reflexivity).
Qed.

(** The threshold signal is written by [updateMinDiff] only, so it is
    never NaN. *)
Lemma reachable_threshold w :
  reachable w -> Number_isNaN (minDiffPercent (self w)) = false.
Proof.
  revert w. apply reachable_ind; [reflexivity |].
  intros e w w' _ Hp Hs.
  by_event e w Hs; try (revert Hp; world w; auto; fail).
  - revert Hp. world w. destruct en, rt; auto.
  - clear Hp. unfold App.updateMinDiff.
    set (n := Number StringToNumber value). world w.
    destruct n; reflexivity.
  - revert Hp. destruct r; world w; auto.
  - revert Hp. world w. destruct rt; auto.
Qed.

(** X9.  Through the component's methods the threshold never becomes
    NaN and the stored interval never falls below 1000, whatever the user
    enters and whatever else happens. *)
Theorem signals_stay_sanitized (w : World) :
  reachable w ->
  Number_isNaN (minDiffPercent (self w)) = false
  /\ js_ge (autoRefreshMs (self w)) MIN_REFRESH_INTERVAL = true
  /\ js_lt (autoRefreshMs (self w)) MIN_REFRESH_INTERVAL = false.
Proof.
  intros Hr. pose proof (reachable_threshold Hr) as Hn.
  pose proof (reachable_clamped Hr) as Hc. unfold intervalClamped in Hc.
  repeat split; try assumption.
  destruct (autoRefreshMs (self w)) as [| | q |]; cbn in *; try discriminate; auto.
  rewrite Hc. reflexivity.
Qed.

(** X10.  [stopAutoRefresh] does nothing at all when no handle is held (no
    [clearInterval] call goes out), and calling it twice is the same as
    calling it once. *)
Theorem stopAutoRefresh_idempotent (w : World) :
  (refreshTimer (self w) = None -> exec stopAutoRefresh w = w)
  /\ exec stopAutoRefresh (exec stopAutoRefresh w) = exec stopAutoRefresh w
  /\ refreshTimer (self (exec stopAutoRefresh w)) = None.
Proof.
  world w. destruct rt; cbn; repeat split; intros; discriminate.
Qed.

(** Once destroyed, always destroyed, and the handle stays absent. *)
Lemma destroyed_no_handle w :
  reachable w -> destroyed (env w) = true -> refreshTimer (self w) = None.
Proof.
  revert w.
  apply (@reachable_ind
           (fun w => destroyed (env w) = true -> refreshTimer (self w) = None));
    [discriminate |].
  intros e w w' _ Hp Hs.
  by_event e w Hs; try (revert Hp; world w; auto; fail).
  - revert Hp Hdes. world w. intros _ ->. destruct en, rt; discriminate.
  - revert Hp. destruct r; world w; auto.
  - world w. destruct rt; reflexivity.
Qed.

(** X11.  After the component is destroyed no timer is alive and no handle
    is held, for good: whatever happens later, no timer can fire and the
    effect cannot run, so nothing arms a timer again. *)
Theorem destroyed_stays_idle (w : World) :
  reachable w -> destroyed (env w) = true ->
  timers (env w) = []
  /\ refreshTimer (self w) = None
  /\ (forall h, step (Tick h) w = None)
  /\ step RunEffect w = None
  /\ (forall e w', step e w = Some w' -> destroyed (env w') = true).
Proof.
  intros Hr Hd.
  assert (Hkeep : forall e w', step e w = Some w' -> destroyed (env w') = true).
  { intros e w' Hs. revert Hd.
    by_event e w Hs; try (world w; auto; fail).
    - congruence.
    - destruct r; world w; auto.
    - world w. destruct rt; auto. }
  pose proof (destroyed_no_handle Hr Hd) as Hn.
  pose proof (reachable_owned Hr) as Hw.
  unfold timerOwned, liveHandles in Hw. rewrite Hn in Hw.
  apply map_eq_nil in Hw.
  repeat split; try assumption.
  - intros h. cbn [App.step]. unfold isLive. rewrite Hw. reflexivity.
  - cbn [App.step]. rewrite Hd. reflexivity.
Qed.

(** X12.  In every reachable world the timers armed so far are the timers
    cleared so far plus the live ones: no armed timer is ever lost track
    of, and at most one is not yet cleared. *)
Theorem timers_accounted (w : World) :
  reachable w ->
  armed (log (env w)) = (cleared (log (env w)) + List.length (timers (env w)))%nat
  /\ (armed (log (env w)) <= S (cleared (log (env w))))%nat.
Proof.
  intros Hr.
  assert (H : armed (log (env w))
              = (cleared (log (env w)) + List.length (timers (env w)))%nat).
  { revert w Hr.
    apply (@reachable_ind
             (fun w => armed (log (env w))
                       = (cleared (log (env w)) + List.length (timers (env w)))%nat));
      [reflexivity |].
    intros e w w' Hr Hp Hs. pose proof (reachable_owned Hr) as Hw.
    unfold timerOwned, liveHandles in Hw.
    by_event e w Hs;
      try (revert Hp; world w; rewrite ?filter_app, ?length_app; cbn;
           rewrite ?length_map; intros ->; lia).
    - revert Hp Hw. world w. destruct en, rt as [h |]; cbn;
        intros Hp Hw; rewrite ?(only_timer_cleared _ Hw);
        try (apply map_eq_nil in Hw; subst ts);
        try (apply (f_equal (@List.length _)) in Hw; rewrite length_map in Hw);
        rewrite ?filter_app, ?length_app; cbn in *; lia.
    - revert Hp. destruct r; world w; intros ->; lia.
    - revert Hp Hw. world w. destruct rt as [h |]; cbn;
        intros Hp Hw; rewrite ?(only_timer_cleared _ Hw);
        try (apply (f_equal (@List.length _)) in Hw; rewrite length_map in Hw);
        rewrite ?filter_app, ?length_app; cbn in *; lia. }
  split; [exact H |].
  pose proof (reachable_owned Hr) as Hw. unfold timerOwned, liveHandles in Hw.
  apply (f_equal (@List.length _)) in Hw. rewrite length_map in Hw.
  destruct (refreshTimer (self w)); cbn in Hw; lia.
Qed.

Lemma reachable_handleFresh w : reachable w -> handleFresh w.
Proof.
  revert w. apply (@reachable_ind handleFresh); unfold handleFresh;
    [discriminate |].
  intros e w w' _ Hp Hs h.
  by_event e w Hs; try (revert Hp; world w; auto; fail).
  - revert Hp. world w. destruct en, rt; cbn; intros Hp Hh;
      try discriminate; try (injection Hh as <-; apply Pos.lt_succ_diag_r).
  - revert Hp. destruct r; world w; auto.
  - world w. destruct rt; discriminate.
Qed.

(** X13.  A timer that [startAutoRefresh] replaces can never fire again:
    the new handle differs from the old one, and the old one is no longer
    live. *)
Theorem replaced_timer_is_dead (w : World) (h : handle) (intervalMs : number) :
  reachable w -> refreshTimer (self w) = Some h ->
  let w' := exec (startAutoRefresh intervalMs) w in
  refreshTimer (self w') = Some (nextHandle (env w))
  /\ nextHandle (env w) <> h
  /\ isLive h (env w') = false
  /\ step (Tick h) w' = None.
Proof.
  intros Hr Hh. cbv zeta.
  pose proof (reachable_owned Hr) as Hw.
  pose proof (reachable_handleFresh Hr Hh) as Hlt.
  destruct (startAutoRefresh_owned NumberToString intervalMs Hw) as [Ht [Hn _]].
  assert (Hneq : nextHandle (env w) <> h) by (intros E; rewrite E in Hlt; lia).
  assert (Hdead : isLive h (env (exec (startAutoRefresh intervalMs) w)) = false).
  { unfold isLive. rewrite Ht. cbn.
    apply orb_false_iff. split; [apply Pos.eqb_neq; exact Hneq | reflexivity]. }
  repeat split; try assumption.
  cbn [App.step]. rewrite Hdead. reflexivity.
Qed.

Lemma Forall_filter_keeps (A : Type) (P : A -> Prop) (f : A -> bool) (l : list A) :
  Forall P l -> Forall P (filter f l).
Proof.
  intros H. rewrite Forall_forall in *. intros x Hin.
  apply filter_In in Hin. apply H. tauto.
Qed.

(** X14.  No timer is ever armed below the floor: in every reachable
    world each live timer has a delay of at least 1000, and so has every
    [setInterval] call made so far. *)
Theorem no_timer_below_floor (w : World) :
  reachable w ->
  Forall (fun t => js_ge (delay t) MIN_REFRESH_INTERVAL = true) (timers (env w))
  /\ armedAboveFloor (log (env w)).
Proof.
  revert w.
  apply (@reachable_ind
           (fun w => Forall (fun t => js_ge (delay t) MIN_REFRESH_INTERVAL = true)
                       (timers (env w))
                     /\ armedAboveFloor (log (env w)))).
  - intros h0 t0. split; [constructor | repeat constructor].
  - intros e w w' Hr [Ht Hl] Hs. unfold armedAboveFloor in *.
    pose proof (reachable_clamped Hr) as Hc. unfold intervalClamped in Hc.
    assert (Hm : js_ge (Math_max MIN_REFRESH_INTERVAL (autoRefreshMs (self w)))
                   MIN_REFRESH_INTERVAL = true).
    { apply Math_max_floor. apply ge_not_NaN in Hc. tauto. }
    by_event e w Hs;
      try (revert Ht Hl; world w; intros Ht Hl; split;
           [exact Ht | rewrite ?Forall_app; repeat split; auto; fail]).
    + revert Ht Hl Hm. clear Hc. world w. intros Ht Hl Hm.
      destruct en, rt as [h' |]; cbn; split;
        rewrite ?Forall_app; repeat split; auto;
        try (apply Forall_filter_keeps; exact Ht);
        repeat constructor; auto.
    + revert Ht Hl. world w. intros Ht Hl. split.
      * rewrite Forall_forall in *. intros t Hin. apply in_map_iff in Hin.
        destruct Hin as [t0 [<- Hin]].
        destruct (Pos.eqb (timerId t0) h); cbn; auto.
      * rewrite ?Forall_app; repeat split; auto.
    + revert Ht Hl. destruct r; world w; auto.
    + revert Ht Hl. world w. intros Ht Hl. split; [| exact Hl].
      rewrite Forall_forall in *. intros t Hin. apply in_map_iff in Hin.
      destruct Hin as [t0 [<- Hin]]. cbn. auto.
    + revert Ht Hl. world w. intros Ht Hl.
      destruct rt as [h' |]; cbn; split; auto;
        rewrite ?Forall_app; repeat split; auto;
        try (apply Forall_filter_keeps; exact Ht).
Qed.

(** X15.  The loading flag is never left on: in every reachable world,
    [loading] being true means some request is still awaited. *)
Theorem loading_means_awaiting (w : World) :
  reachable w -> loading (self w) = true -> (0 < awaiting (env w))%nat.
Proof.
  revert w.
  apply (@reachable_ind
           (fun w => loading (self w) = true -> (0 < awaiting (env w))%nat)).
  - intros h0 t0 _. cbn. lia.
  - intros e w w' _ Hp Hs.
    by_event e w Hs; try (revert Hp; world w; auto; lia).
    + revert Hp. world w. destruct en, rt; cbn; auto; intros; lia.
    + destruct r; world w; discriminate.
    + revert Hp. world w. destruct rt; auto.
Qed.

(** X16.  Records never appear without a timestamp, and the timestamp is
    never in the future: in every reachable world, if [lastUpdated] is
    null the raw record set is still empty, and otherwise it is at most
    the current time. *)
Theorem lastUpdated_tracks_data (w : World) :
  reachable w ->
  (lastUpdated (self w) = None -> opportunities (self w) = [])
  /\ (forall d, lastUpdated (self w) = Some d -> (d <= clock (env w))%N).
Proof.
  revert w.
  apply (@reachable_ind
           (fun w => (lastUpdated (self w) = None -> opportunities (self w) = [])
                     /\ (forall d, lastUpdated (self w) = Some d ->
                                   (d <= clock (env w))%N))).
  - intros h0 t0. split; [reflexivity | discriminate].
  - intros e w w' _ Hp Hs.
    by_event e w Hs; try (revert Hp; world w; auto; fail).
    + revert Hp. world w. destruct en, rt; auto.
    + revert Hp. destruct r; world w; auto. intros _.
      split; [discriminate |]. intros d Hd. injection Hd as <-. lia.
    + revert Hp. world w. intros [H1 H2]. split; [exact H1 |].
      intros d Hd. apply H2 in Hd. lia.
    + revert Hp. world w. destruct rt; auto.
Qed.

(** X17.  Switching auto-refresh on and off again, the effect running
    after each switch, sends exactly one request and leaves no timer
    behind: the timer armed by the first run is cleared by the second. *)
Theorem enable_then_disable (w : World) :
  reachable w ->
  autoRefreshEnabled (self w) = false -> destroyed (env w) = false ->
  exists w',
    run [ToggleAutoRefresh; RunEffect; ToggleAutoRefresh; RunEffect] w = Some w'
    /\ timers (env w') = []
    /\ refreshTimer (self w') = None
    /\ autoRefreshEnabled (self w') = false
    /\ log (env w') =
       (log (env w) ++ map ClearInterval (handleList (refreshTimer (self w)))
          ++ [HttpGet (refreshRequest (self w));
              SetInterval (nextHandle (env w))
                (Math_max MIN_REFRESH_INTERVAL (autoRefreshMs (self w)));
              ClearInterval (nextHandle (env w))])%list
    /\ fetches (log (env w')) = S (fetches (log (env w))).
Proof.
  intros Hr He Hd. pose proof (reachable_owned Hr) as Hw.
  unfold timerOwned, liveHandles in Hw. clear Hr. revert Hw.
  world w. subst en ds. unfold fetches.
  destruct rt as [h |]; cbn; intros Hw.
  - rewrite (only_timer_cleared _ Hw). cbn. rewrite Pos.eqb_refl. cbn.
    eexists. split; [reflexivity |]. cbn.
    rewrite <- !app_assoc. cbn. repeat split.
    rewrite !filter_app, !length_app. cbn. lia.
  - apply map_eq_nil in Hw. subst ts. cbn. rewrite Pos.eqb_refl. cbn.
    eexists. split; [reflexivity |]. cbn.
    rewrite <- !app_assoc. cbn. repeat split.
    rewrite !filter_app, !length_app. cbn. lia.
Qed.

(** X18.  The sanitizers are idempotent: entering the value
    [updateAutoInterval] (or [updateMinDiff]) has stored changes nothing. *)
Theorem sanitizers_idempotent (value : Input) (w : World) :
  let w1 := exec (updateAutoInterval value) w in
  let w2 := exec (updateMinDiff value) w in
  exec (updateAutoInterval (NumberValue (autoRefreshMs (self w1)))) w1 = w1
  /\ exec (updateMinDiff (NumberValue (minDiffPercent (self w2)))) w2 = w2.
Proof.
  cbv zeta. unfold App.updateAutoInterval, App.updateMinDiff.
  set (n := Number StringToNumber value). world w.
  destruct n as [| | q |]; cbn; try (split; reflexivity).
  destruct (Qle_bool q (inject_Z 1000)) eqn:E; cbn; rewrite ?E; split; reflexivity.
Qed.

(** Construction sends exactly one request, to the default API base
    with the default threshold, and arms no timer; auto-refresh being off
    by default, the first run of the effect changes nothing. *)
Lemma constructor_sends_one_request (h0 : handle) (t0 : N) :
  let w := constructed h0 t0 in
  log (env w) =
    [HttpGet {| url := "https://arbitrage-production-e91f.up.railway.app/api/arbitrage";
                params := [("minDiffPercent", NumberToString (Finite (1 # 2)))] |}]
  /\ loading (self w) = true
  /\ awaiting (env w) = 1%nat
  /\ timers (env w) = []
  /\ refreshTimer (self w) = None
  /\ opportunities (self w) = []
  /\ step RunEffect w = Some w.
Proof. cbv zeta. repeat split. Qed.

Lemma stripTrailingSlash_none b :
  endsWithSlash b = false -> stripTrailingSlash b = b.
Proof.
  induction b as [| c b IH]; [reflexivity |].
  cbn [endsWithSlash stripTrailingSlash]. destruct b as [| d b].
  - intros ->. reflexivity.
  - intros H. rewrite (IH H). reflexivity.
Qed.

(** X19.  [refresh] drops exactly one trailing slash of the API base: a
    base written with a slash at its end gives the URL of the base without
    it, so a base that has no trailing slash and the same base with one
    give the same request; of two trailing slashes one stays. *)
Theorem refresh_url_trailing_slash (c : AppComponent) (b : string) :
  url (refreshRequest (write Sig.apiBase (b ++ "/") c)) = b ++ "/api/arbitrage"
  /\ (endsWithSlash b = false ->
      refreshRequest (write Sig.apiBase (b ++ "/") c)
      = refreshRequest (write Sig.apiBase b c)).
Proof.
  assert (Hb : forall s, apiBase (write Sig.apiBase s c) = s
                         /\ minDiffPercent (write Sig.apiBase s c) = minDiffPercent c)
    by (intros s; destruct c; split; reflexivity).
  unfold App.refreshRequest.
  destruct (Hb (b ++ "/")) as [-> ->]. destruct (Hb b) as [-> ->].
  rewrite stripTrailingSlash_added. split; [reflexivity |].
  intros H. rewrite (stripTrailingSlash_none _ H). reflexivity.
Qed.

(** X20.  The component never asks the service for [minDiffPercent=NaN]:
    every request sent so far, in every reachable world, goes to the API
    base of the moment followed by [/api/arbitrage] and carries as its only
    parameter [minDiffPercent] with the string of a number that is not
    NaN. *)
Theorem requests_stay_sanitized (w : World) :
  reachable w ->
  Forall (fun e => match e with
                   | HttpGet q => sanitizedRequest NumberToString q
                   | _ => True
                   end) (log (env w)).
Proof.
  revert w.
  apply (@reachable_ind
           (fun w => Forall (fun e => match e with
                                      | HttpGet q => sanitizedRequest NumberToString q
                                      | _ => True
                                      end) (log (env w)))).
  - intros h0 t0. repeat constructor.
    exists DEFAULT_API_BASE, (Finite (1 # 2)). repeat split.
  - intros e w w' Hr Hp Hs. pose proof (reachable_threshold Hr) as Hn.
    assert (Hq : sanitizedRequest NumberToString (refreshRequest (self w))).
    { exists (apiBase (self w)), (minDiffPercent (self w)). repeat split. exact Hn. }
    by_event e w Hs;
      try (revert Hp Hq; world w; intros Hp Hq;
           rewrite ?Forall_app; repeat split; auto; fail).
    + revert Hp Hq. world w. intros Hp Hq.
      destruct en, rt; cbn; rewrite ?Forall_app; repeat split; auto;
        repeat constructor; auto.
    + revert Hp. destruct r; world w; auto.
    + revert Hp. world w. destruct rt; cbn; auto. intros Hp.
      rewrite Forall_app. split; [exact Hp | repeat constructor].
Qed.

End MoreComponentFacts.

(** *** The further properties on concrete inputs *)

Lemma running_reachable :
  reachable Examples.sampleNumber Examples.sampleString Worlds.running.
Proof.
  exists 1%positive, 0%N, Worlds.startUp. vm_compute. reflexivity.
Defined.

Lemma torn_reachable :
  reachable Examples.sampleNumber Examples.sampleString Worlds.torn.
Proof.
  exists 1%positive, 0%N, Worlds.shutDown. vm_compute. reflexivity.
Defined.

Lemma fresh_reachable :
  reachable Examples.sampleNumber Examples.sampleString Examples.fresh.
Proof.
  exists 1%positive, 0%N, []. reflexivity.
Defined.

Lemma view_changes_only_on_data_witness :
  filtered (self (exec (refresh_resume (Rejected OtherValue)) Worlds.viewing))
  = filtered Examples.dashboard.
Proof.
  apply (@view_changes_only_on_data Examples.sampleNumber Examples.sampleString
           (Settle (Rejected OtherValue)) Worlds.viewing).
  - reflexivity.
  - reflexivity.
Defined.

Lemma signals_stay_sanitized_witness :
  Number_isNaN (minDiffPercent (self Worlds.torn)) = false
  /\ js_ge (autoRefreshMs (self Worlds.torn)) MIN_REFRESH_INTERVAL = true
  /\ js_lt (autoRefreshMs (self Worlds.torn)) MIN_REFRESH_INTERVAL = false.
Proof.
  exact (signals_stay_sanitized torn_reachable).
Defined.

Lemma destroyed_stays_idle_witness :
  timers (env Worlds.torn) = [] /\ refreshTimer (self Worlds.torn) = None.
Proof.
  destruct (destroyed_stays_idle torn_reachable) as [Ht [Hh _]].
  - reflexivity.
  - split; assumption.
Defined.

Lemma timers_accounted_witness :
  armed (log (env Worlds.torn)) = 2%nat
  /\ cleared (log (env Worlds.torn)) = 2%nat
  /\ armed (log (env Worlds.running))
     = (cleared (log (env Worlds.running))
        + List.length (timers (env Worlds.running)))%nat.
Proof.
  destruct (timers_accounted running_reachable) as [H _].
  split; [reflexivity | split; [reflexivity | exact H]].
Defined.

Lemma replaced_timer_is_dead_witness :
  isLive 1%positive
    (env (exec (startAutoRefresh Examples.sampleString (ofZ 5000)) Worlds.running))
  = false.
Proof.
  destruct (@replaced_timer_is_dead Examples.sampleNumber Examples.sampleString
              Worlds.running 1%positive (ofZ 5000)) as [_ [_ [H _]]].
  - exact running_reachable.
  - reflexivity.
  - exact H.
Defined.

Lemma no_timer_below_floor_witness :
  Forall (fun t => js_ge (delay t) MIN_REFRESH_INTERVAL = true)
    (timers (env Worlds.running))
  /\ armedAboveFloor (log (env Worlds.torn)).
Proof.
  destruct (no_timer_below_floor running_reachable) as [H1 _].
  destruct (no_timer_below_floor torn_reachable) as [_ H2].
  split; assumption.
Defined.

Lemma loading_means_awaiting_witness :
  (0 < awaiting (env Examples.fresh))%nat.
Proof.
  apply (loading_means_awaiting fresh_reachable). reflexivity.
Defined.

Lemma lastUpdated_tracks_data_witness :
  lastUpdated (self Worlds.torn) = Some 1700%N
  /\ (1700 <= clock (env Worlds.torn))%N
  /\ opportunities (self Examples.fresh) = [].
Proof.
  destruct (lastUpdated_tracks_data torn_reachable) as [_ H].
  destruct (lastUpdated_tracks_data fresh_reachable) as [H0 _].
  split; [reflexivity | split; [apply H; reflexivity | apply H0; reflexivity]].
Defined.

Lemma enable_then_disable_witness :
  exists w',
    run Examples.sampleNumber Examples.sampleString
      [ToggleAutoRefresh; RunEffect; ToggleAutoRefresh; RunEffect]
      Examples.fresh = Some w'
    /\ timers (env w') = []
    /\ refreshTimer (self w') = None
    /\ fetches (log (env w')) = 2%nat.
Proof.
  destruct (enable_then_disable fresh_reachable) as [w' [Hr [Ht [Hh [_ [_ Hf]]]]]].
  - reflexivity.
  - reflexivity.
  - exists w'. repeat split; assumption.
Defined.

Lemma requests_stay_sanitized_witness :
  Forall (fun e => match e with
                   | HttpGet q => sanitizedRequest Examples.sampleString q
                   | _ => True
                   end) (log (env Worlds.torn)).
Proof.
  exact (requests_stay_sanitized torn_reachable).
Defined.
